(** * AiReviewPR: the diff-review pipeline, embedded and verified

    The development follows the source files of the repository:

    - [src/utils.ts] (module [Utils]): [doesAnyPatternMatch], [post], [get],
      [testConnection];
    - the main script in its current TypeScript form (module [Enhanced]):
      [withRetry], [pushComments], [truncatePrompt], [aiGenerate],
      [getPrDiffContext], [getHeadDiffContext], [aiCheckDiffContext];
    - the main script in its older compiled form (module [Old]), with the
      same function names, no cap on the diff or the prompt, a fixed retry
      delay and no connectivity test;
    - the inputs of the action (module [Startup]): [split_message] and
      [validateEnvironment]; the end of an HTTP exchange (module [Http]).

    JavaScript values are modelled as follows.  A string is a [string]; each
    [ascii] stands for one code unit (the range 0..255).  A number is a
    natural number (counters, indices), a [Z] (lengths, attempt numbers,
    delays in milliseconds) or a [Q] inside a JSON body.
    A parsed JSON body is a [JSON] tree with JavaScript truthiness.  An
    [async] function is a state-and-exception computation [M A] over a
    [World]; a thrown value keeps the effects performed before the throw,
    and is an [Error]: an Error object of the program or the value
    [undefined].
    Console output is not part of the model. *)

From Stdlib Require Import String Ascii List ZArith QArith Lia Bool Arith.
Import ListNotations.

Open Scope string_scope.
Open Scope list_scope.
Open Scope Z_scope.

Notation "a +++ b" := (String.append a b) (at level 60, right associativity).

(* ================================================================== *)
(** * JavaScript strings and arrays *)
(* ================================================================== *)

Module JS.

(** The line feed, written ['\n'] in the source. *)
Definition nl : string := String (ascii_of_nat 10) EmptyString.

(** [s.length] *)
Definition len (s : string) : Z := Z.of_nat (String.length s).

(** White space and line terminators removed by [String.prototype.trim]:
    TAB, LF, VT, FF, CR, SP and NBSP. *)
Definition is_whitespace (c : ascii) : bool :=
  let n := nat_of_ascii c in
  ((9 <=? n)%nat && (n <=? 13)%nat) || (n =? 32)%nat || (n =? 160)%nat.

Fixpoint trimStart (s : string) : string :=
  match s with
  | EmptyString => EmptyString
  | String c s' => if is_whitespace c then trimStart s' else s
  end.

Definition reverse (s : string) : string :=
  string_of_list_ascii (rev_append (list_ascii_of_string s) []).

Definition trimEnd (s : string) : string := reverse (trimStart (reverse s)).

(** [s.trim()] *)
Definition trim (s : string) : string := trimEnd (trimStart s).

(** Truthiness of a string: [!s] holds exactly for the empty string. *)
Definition nonempty (s : string) : bool :=
  match s with EmptyString => false | String _ _ => true end.

(** An index argument of [substring], clamped to [0 .. s.length]. *)
Definition clamp (n : Z) (s : string) : Z := Z.max 0 (Z.min n (len s)).

(** [s.substring(a, b)]: both indices are clamped and swapped when
    [a > b]. *)
Definition substring (s : string) (a b : Z) : string :=
  let a' := clamp a s in
  let b' := clamp b s in
  let lo := Z.min a' b' in
  let hi := Z.max a' b' in
  String.substring (Z.to_nat lo) (Z.to_nat (hi - lo)) s.

(** [s.substring(a)] *)
Definition substringFrom (s : string) (a : Z) : string := substring s a (len s).

(** [s.startsWith(p)] *)
Definition startsWith (s p : string) : bool := String.prefix p s.

(** [s.endsWith(p)] *)
Definition endsWith (s p : string) : bool := String.prefix (reverse p) (reverse s).

(** [s.split(sep)] for a one-character separator: never the empty array. *)
Fixpoint split (sep : ascii) (s : string) : list string :=
  match s with
  | EmptyString => [EmptyString]
  | String c s' =>
      if Ascii.eqb c sep then EmptyString :: split sep s'
      else match split sep s' with
           | [] => [String c EmptyString]
           | l :: ls => String c l :: ls
           end
  end.

(** [lines.join(sep)] *)
Definition join (sep : string) (l : list string) : string := String.concat sep l.

(** [arr.slice(0, n)] for [n >= 0] *)
Definition sliceTo {A} (l : list A) (n : nat) : list A := firstn n l.

(** [arr.slice(-n)] for [n > 0]: the last [n] elements. *)
Definition sliceLast {A} (l : list A) (n : nat) : list A :=
  skipn (List.length l - n)%nat l.

(** [a || b] on a possibly undefined string: [b] when [a] is undefined or
    empty. *)
Definition orElse (a : option string) (b : string) : string :=
  match a with
  | Some s => if nonempty s then s else b
  | None => b
  end.

(** Truthiness of a possibly undefined string. *)
Definition truthyStr (a : option string) : bool :=
  match a with Some s => nonempty s | None => false end.

(** Interpolation of a possibly undefined string in a template literal. *)
Definition interpolate (a : option string) : string :=
  match a with Some s => s | None => "undefined" end.

End JS.

(* ================================================================== *)
(** * Parsed JSON bodies *)
(* ================================================================== *)

(** The result of [JSON.parse], or an object literal of the program.  The
    fields of an object are its own properties, each key once. *)
#[warnings="-register-all"]
Inductive JSON : Type :=
| JNull
| JBool (b : bool)
| JNum (q : Q)
| JStr (s : string)
| JArr (items : list JSON)
| JObj (fields : list (string * JSON)).

(** JavaScript truthiness of a value. *)
Definition truthy (v : JSON) : bool :=
  match v with
  | JNull => false
  | JBool b => b
  | JNum q => negb (Qeq_bool q 0)
  | JStr s => JS.nonempty s
  | JArr _ => true
  | JObj _ => true
  end.

Fixpoint assoc (key : string) (fields : list (string * JSON)) : option JSON :=
  match fields with
  | [] => None
  | (k, v) :: rest => if String.eqb k key then Some v else assoc key rest
  end.

(** [v.key] (and [v?.key]) for one of the keys the program reads
    ([error], [detail], [response], [id]); [None] is [undefined].  Only an
    object carries such a property. *)
Definition prop (v : JSON) (key : string) : option JSON :=
  match v with
  | JObj fields => assoc key fields
  | _ => None
  end.

(** Truthiness of a possibly undefined value. *)
Definition truthyProp (o : option JSON) : bool :=
  match o with Some v => truthy v | None => false end.

(* ================================================================== *)
(** * Thrown values *)
(* ================================================================== *)

(** One constructor per [throw] site (or rejection) of the program; the
    comment gives the message of the [Error] in the source. *)
Inductive Error : Type :=
| EmptyPrompt            (* "Empty or invalid prompt provided to AI generation" *)
| EmptyResponse          (* "Received empty response from AI service" *)
| ServiceError (e : JSON)   (* `AI service error: ${response.error}` *)
| ServiceDetail (d : JSON)  (* `AI service detail error: ${JSON.stringify(response.detail)}` *)
| NoContent              (* "AI service returned no response content" *)
| MissingEnvironment     (* "Missing required environment variables: INPUT_REPOSITORY or INPUT_TOKEN" *)
| NoResponseId           (* "Failed to post comment - no response ID received" *)
| AllFailed (n : nat)    (* `All ${items.length} files failed to be reviewed...` *)
| ConnectivityFailed (msg : string) (* `Ollama connectivity test failed: ${result.message}` *)
| Rejected (msg : string)   (* a rejection of the promise of [post] or [get] *)
| ExecFailed (msg : string) (* the error thrown by [execSync] *)
| JsTypeError            (* TypeError: commit.startsWith is not a function *)
| ThrownUndefined        (* the value [undefined]: [throw lastError] with [lastError]
                            never assigned, or a rejection with [undefined] *)
| MessageOfUndefined.    (* TypeError: Cannot read properties of undefined (reading 'message') *)

(** Whether [error.message] can be read, as the [catch] block of
    [withRetry] does.  Every constructor but [ThrownUndefined] stands for
    an [Error] object, whose message is a string; the value [undefined]
    has no properties, and reading one throws a TypeError. *)
Definition hasMessage (error : Error) : bool :=
  match error with
  | ThrownUndefined => false
  | _ => true
  end.

Inductive Result (A : Type) : Type :=
| Ok (a : A)
| Throw (e : Error).
Arguments Ok {A} a.
Arguments Throw {A} e.

Definition isOk {A} (r : Result A) : bool :=
  match r with Ok _ => true | Throw _ => false end.

(* ================================================================== *)
(** * The world: network, subprocesses, clock and timers *)
(* ================================================================== *)

(** The argument of [post] in [utils.ts]. *)
Record Request : Type := mkRequest {
  req_url : string;
  req_body : JSON;
  req_header : list (string * string);
  req_timeout : Z
}.

(** Interactions with the outside, in the order they happen. *)
Inductive IOEvent : Type :=
| IoPost (r : Request)                    (* an HTTP POST through [post] *)
| IoGet (url : string) (timeout : Z)      (* an HTTP GET through [get] *)
| IoExec (cmd : string)                   (* a subprocess through [execSync] *)
| IoNow.                                  (* [new Date().toISOString()] *)

Inductive NetOutcome : Type :=
| Resolve (body : JSON)     (* the promise resolves with the parsed body *)
| Reject (msg : string).    (* the promise rejects: bad URL, transport
                               failure, timeout, status outside 2xx,
                               empty or unparsable body *)

Inductive ExecOutcome : Type :=
| Stdout (out : string)
| ExecError (msg : string).

(** What the outside answers, given the interactions so far; the answers
    do not depend on the delays waited. *)
Record Oracle : Type := mkOracle {
  net_post : list IOEvent -> Request -> NetOutcome;
  net_get : list IOEvent -> string -> NetOutcome;
  exec : list IOEvent -> string -> ExecOutcome;
  clock : list IOEvent -> string
}.

(** [io] is the log of interactions and [waits] the log of timer delays
    ([setTimeout], in milliseconds), both oldest first. *)
Record World : Type := mkWorld {
  oracle : Oracle;
  io : list IOEvent;
  waits : list Z
}.

Definition record (ev : IOEvent) (w : World) : World :=
  mkWorld (oracle w) (io w ++ [ev]) (waits w).

(** [await new Promise(resolve => setTimeout(resolve, ms))] *)
Definition sleepWorld (ms : Z) (w : World) : World :=
  mkWorld (oracle w) (io w) (waits w ++ [ms]).

(** The requests sent through [post], oldest first. *)
Fixpoint posts (evs : list IOEvent) : list Request :=
  match evs with
  | [] => []
  | IoPost r :: rest => r :: posts rest
  | _ :: rest => posts rest
  end.

(* ================================================================== *)
(** * Computations *)
(* ================================================================== *)

Definition M (A : Type) : Type := World -> Result A * World.

Definition ret {A} (a : A) : M A := fun w => (Ok a, w).

Definition throw {A} (e : Error) : M A := fun w => (Throw e, w).

Definition bind {A B} (m : M A) (k : A -> M B) : M B :=
  fun w =>
    match m w with
    | (Ok a, w') => k a w'
    | (Throw e, w') => (Throw e, w')
    end.

Notation "x <- m ;; k" := (bind m (fun x => k))
  (at level 61, m at next level, right associativity).
Notation "m ;;; k" := (bind m (fun _ => k))
  (at level 61, right associativity).

Definition sleep (ms : Z) : M unit := fun w => (Ok tt, sleepWorld ms w).

(** [execSync(cmd, { encoding: 'utf-8', stdio: 'pipe' })] *)
Definition execSync (cmd : string) : M string :=
  fun w =>
    match exec (oracle w) (io w) cmd with
    | Stdout out => (Ok out, record (IoExec cmd) w)
    | ExecError msg => (Throw (ExecFailed msg), record (IoExec cmd) w)
    end.

(** [new Date().toISOString()] *)
Definition now : M string :=
  fun w => (Ok (clock (oracle w) (io w)), record IoNow w).

Definition tryCatch {A} (body : M A) (handler : Error -> M A) : M A :=
  fun w =>
    match body w with
    | (Ok a, w') => (Ok a, w')
    | (Throw e, w') => handler e w'
    end.

(* ================================================================== *)
(** * [src/utils.ts] *)
(* ================================================================== *)

(** The built-in [RegExp]: [new RegExp(pattern)] either yields a regular
    expression or throws a [SyntaxError] ([None]); [regex.test(str)] is a
    search for a match anywhere in [str].  The patterns are built without
    flags, so [test] keeps no state between calls. *)
Class RegExpEngine : Type := {
  RegExp : Type;
  RegExp_new : string -> option RegExp;
  RegExp_test : RegExp -> string -> bool
}.

Module Utils.

Section Patterns.
Context {engine : RegExpEngine}.

(** The callback of [patterns.some]: the [catch] turns a pattern that does
    not compile into [false]. *)
Definition patternMatches (str : string) (pattern : string) : bool :=
  match RegExp_new pattern with
  | Some regex => RegExp_test regex str
  | None => false
  end.

Definition doesAnyPatternMatch (patterns : list string) (str : string) : bool :=
  if (List.length patterns =? 0)%nat then false
  else if negb (JS.nonempty str) then false
  else existsb (patternMatches str) patterns.

End Patterns.

(** [post({url, body, header, timeout})]: one exchange with the network. *)
Definition post (r : Request) : M JSON :=
  fun w =>
    match net_post (oracle w) (io w) r with
    | Resolve body => (Ok body, record (IoPost r) w)
    | Reject msg => (Throw (Rejected msg), record (IoPost r) w)
    end.

(** [get({url, timeout})] *)
Definition get (url : string) (timeout : Z) : M JSON :=
  fun w =>
    match net_get (oracle w) (io w) url with
    | Resolve body => (Ok body, record (IoGet url timeout) w)
    | Reject msg => (Throw (Rejected msg), record (IoGet url timeout) w)
    end.

(** The value [testConnection] resolves with ([responseTime] left out). *)
Record ConnectionResult : Type := mkConnectionResult {
  success : bool;
  message : string
}.

Definition testConnection (url : string) : M ConnectionResult :=
  tryCatch
    (_ <- get (url +++ "/api/tags") 10000 ;;
     ret (mkConnectionResult true "Connection successful"))
    (fun error =>
       ret (mkConnectionResult false
              ("Connection failed: " +++
               match error with Rejected msg => msg | _ => "" end))).

End Utils.

(* ================================================================== *)
(** * Configuration shared by both pipelines *)
(* ================================================================== *)

(** The [config] object.  [maxPromptLength] exists in the enhanced
    pipeline only. *)
Record Config : Type := mkConfig {
  includeFiles : list string;
  excludeFiles : list string;
  reviewPullRequest : bool;
  maxRetries : Z;
  retryDelay : Z;
  timeout : Z;
  maxPromptLength : Z
}.

(** The variables of [process.env] the pipeline reads. *)
Record Env : Type := mkEnv {
  INPUT_PULL_REQUEST_NUMBER : option string;
  INPUT_REPOSITORY : option string;
  INPUT_TOKEN : option string;
  GITHUB_API_URL : option string;
  GITHUB_SERVER_URL : option string;
  GITHUB_SHA : option string;
  INPUT_BASE_REF : option string;
  INPUT_AI_TOKEN : option string;
  INPUT_REVIEW_PROMPT : option string
}.

(** The module-level constants: [config], [process.env], the validated
    [url] and [model], and [systemPrompt] (which comes from [./prompt]). *)
Record Program : Type := mkProgram {
  config : Config;
  env : Env;
  url : string;
  model : string;
  systemPrompt : string
}.

(** An item of the arrays built by the diff collectors. *)
Record DiffItem : Type := mkDiffItem {
  path : string;
  context : string
}.

(** The counters of the review loop. *)
Record Counters : Type := mkCounters {
  successCount : nat;
  errorCount : nat;
  failedFiles : list string
}.

(** How [aiCheckDiffContext] ends: it returns, or it terminates the process
    through [process.exit(code)]. *)
Inductive Termination : Type :=
| Returned
| ProcessExit (code : Z).

(* ================================================================== *)
(** * The enhanced pipeline (the TypeScript main script) *)
(* ================================================================== *)

Module Enhanced.

(** The numeric constants of [config]; the pattern lists and the mode come
    from the inputs of the action. *)
Definition defaultConfig (includeFiles excludeFiles : list string)
    (reviewPullRequest : bool) : Config :=
  mkConfig includeFiles excludeFiles reviewPullRequest 3 5000 120000 8000.

Section Pipeline.
Context {engine : RegExpEngine}.
Variable P : Program.

(** The [delay] computed in the [catch] block of [withRetry], as an
    integer.  The source computes it on doubles, which gives this integer
    as long as the product is a finite double (for the delay 5000 of
    [config]: up to attempt 1012). *)
Definition retryWait (useExponentialBackoff : bool) (attempt : Z) : Z :=
  if useExponentialBackoff
  then retryDelay (config P) * 2 ^ (attempt - 1)
  else retryDelay (config P).

(** [throw lastError!] *)
Definition throwLast {T} (lastError : option Error) : M T :=
  match lastError with
  | Some e => throw e
  | None => throw ThrownUndefined
  end.

(** The [for] loop of [withRetry], from [attempt] on.  [fuel] bounds the
    number of iterations; [withRetry] supplies [maxRetries] of it, which
    is what the loop needs.  The [catch] block reads [lastError.message]
    (and calls [toLowerCase] on it) before it waits: for a rejection with
    [undefined] that read throws a TypeError, which leaves [withRetry] at
    once. *)
Fixpoint withRetryLoop {T} (operation : M T) (maxRetries : Z)
    (useExponentialBackoff : bool) (fuel : nat) (attempt : Z)
    (lastError : option Error) : M T :=
  match fuel with
  | O => throwLast lastError
  | S fuel' =>
      if attempt <=? maxRetries then
        tryCatch operation
          (fun error =>
             if negb (hasMessage error) then throw MessageOfUndefined
             else
               (if attempt <? maxRetries
                then sleep (retryWait useExponentialBackoff attempt)
                else ret tt) ;;;
               withRetryLoop operation maxRetries useExponentialBackoff
                 fuel' (attempt + 1) (Some error))
      else throwLast lastError
  end.

Definition withRetry {T} (operation : M T) (operationName : string)
    (maxRetries : Z) (useExponentialBackoff : bool) : M T :=
  withRetryLoop operation maxRetries useExponentialBackoff
    (Z.to_nat maxRetries) 1 None.

(** The value returned when no pull request number is configured. *)
Definition localLog : JSON :=
  JObj [("id", JStr "local-log"); ("success", JBool true)].

Definition commentRequest (endpoint token message : string) : Request :=
  mkRequest endpoint
    (JObj [("body", JStr message)])
    [("Authorization", "token " +++ token);
     ("Accept", "application/vnd.github.v3+json");
     ("User-Agent", "AI-Review-Bot")]
    15000.

Definition pushComments (message : string) : M JSON :=
  if negb (JS.truthyStr (INPUT_PULL_REQUEST_NUMBER (env P))) then
    ret localLog
  else
    let pullRequestNumber := JS.interpolate (INPUT_PULL_REQUEST_NUMBER (env P)) in
    let repository := INPUT_REPOSITORY (env P) in
    let token := INPUT_TOKEN (env P) in
    if negb (JS.truthyStr repository) || negb (JS.truthyStr token) then
      throw MissingEnvironment
    else
      let apiUrl := JS.orElse (GITHUB_API_URL (env P)) "https://api.github.com" in
      let endpoint :=
        apiUrl +++ "/repos/" +++ JS.interpolate repository +++
        "/issues/" +++ pullRequestNumber +++ "/comments" in
      withRetry
        (Utils.post (commentRequest endpoint (JS.interpolate token) message))
        "push comment" (maxRetries (config P)) false.

Definition truncatePrompt (prompt : string) (maxLength : Z) : string :=
  if JS.len prompt <=? maxLength then prompt
  else
    let simple :=
      JS.substring prompt 0 (maxLength - 50) +++
      JS.nl +++ JS.nl +++ "[... truncated for length ...]" in
    let lines := JS.split (ascii_of_nat 10) prompt in
    if (10 <? List.length lines)%nat then
      let header := JS.join JS.nl (JS.sliceTo lines 5) in
      let footer := JS.join JS.nl (JS.sliceLast lines 5) in
      let truncated :=
        header +++ JS.nl +++ JS.nl +++
        "[... content truncated for length ...]" +++
        JS.nl +++ JS.nl +++ footer in
      if JS.len truncated <=? maxLength then truncated else simple
    else simple.

(** [requestData], given the prompt after trimming and truncation. *)
Definition requestData (truncatedPrompt model : string)
    (system : option string) : JSON :=
  JObj [("prompt", JStr truncatedPrompt);
        ("model", JStr model);
        ("stream", JBool false);
        ("system", JStr (JS.orElse system (systemPrompt P)));
        ("options",
         JObj [("tfs_z", JNum (3 # 2));
               ("top_k", JNum (30 # 1));
               ("top_p", JNum (4 # 5));
               ("temperature", JNum (7 # 10));
               ("num_ctx", JNum (8192 # 1));
               ("num_predict", JNum (2048 # 1))])].

Definition generateRequest (host : string) (token : option string)
    (body : JSON) : Request :=
  mkRequest (host +++ "/api/generate") body
    [("Authorization",
      if JS.truthyStr token then "Bearer " +++ JS.interpolate token else "");
     ("Content-Type", "application/json")]
    (timeout (config P)).

(** [if (cond) throw e] *)
Definition throwIf (cond : bool) (e : Error) : M unit :=
  if cond then throw e else ret tt.

(** [if (field) throw mk(field)] for a possibly undefined field. *)
Definition throwIfField (field : option JSON) (mk : JSON -> Error) : M unit :=
  match field with
  | Some v => throwIf (truthy v) (mk v)
  | None => ret tt
  end.

(** The checks on the body of the response, in the order of the source. *)
Definition validateResponse (response : JSON) : M JSON :=
  throwIf (negb (truthy response)) EmptyResponse ;;;
  throwIfField (prop response "error") ServiceError ;;;
  throwIfField (prop response "detail") ServiceDetail ;;;
  throwIf (negb (truthyProp (prop response "response"))) NoContent ;;;
  ret response.

(** The operation that [aiGenerate] hands to [withRetry]. *)
Definition generateOnce (host : string) (token : option string)
    (body : JSON) : M JSON :=
  response <- Utils.post (generateRequest host token body) ;;
  validateResponse response.

Definition aiGenerate (host : string) (token : option string)
    (prompt : option string) (model : string) (system : option string)
    : M JSON :=
  match prompt with
  | None => throw EmptyPrompt
  | Some prompt =>
      if negb (JS.nonempty (JS.trim prompt)) then throw EmptyPrompt
      else
        let truncatedPrompt :=
          truncatePrompt (JS.trim prompt) (maxPromptLength (config P)) in
        withRetry
          (generateOnce host token (requestData truncatedPrompt model system))
          "AI generation" 2 true
  end.


(** The diff text kept for a file: at most 10000 characters of it, then
    the truncation marker. *)
Definition limitDiff (fileDiffOutput : string) : string :=
  if 10000 <? JS.len fileDiffOutput
  then JS.substring fileDiffOutput 0 10000 +++
       JS.nl +++ "... [diff truncated for length]"
  else fileDiffOutput.

(** First guard of the loop over the changed files. *)
Definition notIncluded (file : string) : bool :=
  (0 <? List.length (includeFiles (config P)))%nat &&
  negb (Utils.doesAnyPatternMatch (includeFiles (config P)) file).

(** Second guard of the loop over the changed files. *)
Definition excluded (file : string) : bool :=
  (0 <? List.length (excludeFiles (config P)))%nat &&
  Utils.doesAnyPatternMatch (excludeFiles (config P)) file.

(** A file passes both guards: neither of the two [continue] is taken. *)
Definition inScope (file : string) : bool :=
  negb (notIncluded file) && negb (excluded file).

(** [diffOutput.trim().split("\n").filter(file => file.trim())] *)
Definition changedFiles (diffOutput : string) : list string :=
  filter (fun file => JS.nonempty (JS.trim file))
    (JS.split (ascii_of_nat 10) (JS.trim diffOutput)).

(** The [for (const file of files)] loop of both collectors; they differ
    in the command that produces the diff of one file.  [items] is the
    array built so far. *)
Fixpoint collectLoop (diffCommand : string -> string) (files : list string)
    (items : list DiffItem) : M (list DiffItem) :=
  match files with
  | [] => ret items
  | file :: rest =>
      if negb (JS.nonempty (JS.trim file)) then
        collectLoop diffCommand rest items
      else if notIncluded file then collectLoop diffCommand rest items
      else if excluded file then collectLoop diffCommand rest items
      else
        items' <- tryCatch
          (fileDiffOutput <- execSync (diffCommand file) ;;
           if JS.nonempty (JS.trim fileDiffOutput)
           then ret (items ++ [mkDiffItem file (limitDiff fileDiffOutput)])
           else ret items)
          (fun _ => ret items) ;;
        collectLoop diffCommand rest items'
  end.

(** The double quote around the file name in the commands. *)
Definition dq : string := String (ascii_of_nat 34) EmptyString.

Definition prDiffCommand (baseRef file : string) : string :=
  "git diff origin/" +++ baseRef +++ "...HEAD -- " +++ dq +++ file +++ dq.

Definition headDiffCommand (file : string) : string :=
  "git diff HEAD^ -- " +++ dq +++ file +++ dq.

(** The outer [catch] of both collectors logs and rethrows, so a failure of
    the two bulk commands propagates. *)
Definition getPrDiffContext : M (list DiffItem) :=
  let baseRef := JS.orElse (INPUT_BASE_REF (env P)) "main" in
  _ <- execSync ("git fetch origin " +++ baseRef) ;;
  diffOutput <- execSync ("git diff --name-only origin/" +++ baseRef +++ "...HEAD") ;;
  let files := changedFiles diffOutput in
  if (List.length files =? 0)%nat then ret []
  else collectLoop (prDiffCommand baseRef) files [].

Definition getHeadDiffContext : M (list DiffItem) :=
  diffOutput <- execSync "git diff --name-only HEAD^" ;;
  let files := changedFiles diffOutput in
  collectLoop headDiffCommand files [].

Definition testOllamaConnection : M unit :=
  result <- Utils.testConnection (url P) ;;
  if Utils.success result then ret tt
  else throw (ConnectivityFailed (Utils.message result)).

(** Removal of a Markdown fence around the generated text. *)
Definition stripFence (commit : string) : string :=
  if JS.startsWith commit "```markdown" then
    let commit := JS.substringFrom commit (JS.len "```markdown") in
    if JS.endsWith commit "```"
    then JS.substring commit 0 (JS.len commit - 3)
    else commit
  else commit.

(** The title of a comment.  The robot emoji (U+1F916) it starts with is
    outside the range of one [ascii]; it is written here as the four bytes
    of its UTF-8 form, the bytes that [post] sends. *)
Definition reviewTitle : string := "🤖 AI Code Review".

Definition commitShaUrl : string :=
  JS.orElse (GITHUB_SERVER_URL (env P)) "https://github.com" +++ "/" +++
  JS.interpolate (INPUT_REPOSITORY (env P)) +++ "/commit/" +++
  JS.interpolate (GITHUB_SHA (env P)).

Definition formatComment (item : DiffItem) (commit timestamp : string) : string :=
  let fileUrl := commitShaUrl +++ "/" +++ path item in
  "# " +++ reviewTitle +++ JS.nl +++
  "**File:** [" +++ path item +++ "](" +++ fileUrl +++ ")" +++ JS.nl +++
  "**Model:** " +++ model P +++ JS.nl +++
  "**Reviewed at:** " +++ timestamp +++ JS.nl +++ JS.nl +++
  JS.trim commit +++ JS.nl +++ JS.nl +++
  "---" +++ JS.nl +++
  "*This review was generated automatically by AI. Please review the suggestions carefully before implementing.*".

(** The [try] block of the review loop for the item at index [i]:
    generation, formatting, publication. *)
Definition reviewItem (i : nat) (item : DiffItem) : M unit :=
  (if (0 <? i)%nat then sleep 2000 else ret tt) ;;;
  response <- aiGenerate (url P) (INPUT_AI_TOKEN (env P))
                (Some (context item)) (model P) (INPUT_REVIEW_PROMPT (env P)) ;;
  match prop response "response" with
  | Some (JStr commit) =>
      let commit := stripFence commit in
      timestamp <- now ;;
      resp <- pushComments (formatComment item commit timestamp) ;;
      if negb (truthyProp (prop resp "id")) then throw NoResponseId
      else ret tt
  | _ => throw JsTypeError
  end.

(** The [for] loop over [items], from index [i] on, with the counters so
    far.  The [catch] of the loop body handles every failure, so the loop
    itself never throws. *)
Fixpoint reviewLoop (i : nat) (items : list DiffItem) (c : Counters)
    (w : World) : Counters * World :=
  match items with
  | [] => (c, w)
  | item :: rest =>
      match reviewItem i item w with
      | (Ok _, w') =>
          reviewLoop (S i) rest
            (mkCounters (S (successCount c)) (errorCount c) (failedFiles c)) w'
      | (Throw _, w') =>
          reviewLoop (S i) rest
            (mkCounters (successCount c) (S (errorCount c))
               (failedFiles c ++ [path item])) w'
      end
  end.

(** The zero counters the review loop starts from. *)
Definition noCounts : Counters := mkCounters 0 0 [].

(** The classification after the summary: only a run in which every file
    failed throws. *)
Definition classify (total : nat) (c : Counters) : M unit :=
  throwIf ((0 <? errorCount c)%nat && (successCount c =? 0)%nat)
    (AllFailed total).

(** The [try] block of [aiCheckDiffContext]. *)
Definition aiCheckDiffContextBody : M unit :=
  testOllamaConnection ;;;
  items <- (if reviewPullRequest (config P)
            then getPrDiffContext else getHeadDiffContext) ;;
  if (List.length items =? 0)%nat then ret tt
  else
    fun w =>
      let (c, w') := reviewLoop 0 items noCounts w in
      classify (List.length items) c w'.

(** [aiCheckDiffContext]: its [catch] ends the process with code 1. *)
Definition aiCheckDiffContext (w : World) : Termination * World :=
  match aiCheckDiffContextBody w with
  | (Ok _, w') => (Returned, w')
  | (Throw _, w') => (ProcessExit 1, w')
  end.

(** The exit code of the process: [0] after [aiCheckDiffContext] returns. *)
Definition main (w : World) : Z * World :=
  match aiCheckDiffContext w with
  | (Returned, w') => (0, w')
  | (ProcessExit code, w') => (code, w')
  end.

End Pipeline.

End Enhanced.

(* ================================================================== *)
(** * The older pipeline (the compiled main script) *)
(* ================================================================== *)

Module Old.

(** The numeric constants of the older [config], which has no
    [maxPromptLength]: the field is never read here. *)
Definition defaultConfig (includeFiles excludeFiles : list string)
    (reviewPullRequest : bool) : Config :=
  mkConfig includeFiles excludeFiles reviewPullRequest 3 2000 30000 0.

Section Pipeline.
Context {engine : RegExpEngine}.
Variable P : Program.

Definition throwLast {T} (lastError : option Error) : M T :=
  match lastError with
  | Some e => throw e
  | None => throw ThrownUndefined
  end.

(** The [for] loop of the older [withRetry]: its [catch] block reads
    [lastError.message] too, and waits the fixed delay. *)
Fixpoint withRetryLoop {T} (operation : M T) (maxRetries : Z)
    (fuel : nat) (attempt : Z) (lastError : option Error) : M T :=
  match fuel with
  | O => throwLast lastError
  | S fuel' =>
      if attempt <=? maxRetries then
        tryCatch operation
          (fun error =>
             if negb (hasMessage error) then throw MessageOfUndefined
             else
               (if attempt <? maxRetries
                then sleep (retryDelay (config P))
                else ret tt) ;;;
               withRetryLoop operation maxRetries fuel' (attempt + 1) (Some error))
      else throwLast lastError
  end.

Definition withRetry {T} (operation : M T) (operationName : string)
    (maxRetries : Z) : M T :=
  withRetryLoop operation maxRetries (Z.to_nat maxRetries) 1 None.

Definition localLog : JSON :=
  JObj [("id", JStr "local-log"); ("success", JBool true)].

(** No [timeout] is passed here: [post] uses its default of 30000. *)
Definition commentRequest (endpoint token message : string) : Request :=
  mkRequest endpoint
    (JObj [("body", JStr message)])
    [("Authorization", "token " +++ token);
     ("Accept", "application/vnd.github.v3+json");
     ("User-Agent", "AI-Review-Bot")]
    30000.

Definition pushComments (message : string) : M JSON :=
  if negb (JS.truthyStr (INPUT_PULL_REQUEST_NUMBER (env P))) then
    ret localLog
  else
    let repository := INPUT_REPOSITORY (env P) in
    let token := INPUT_TOKEN (env P) in
    if negb (JS.truthyStr repository) || negb (JS.truthyStr token) then
      throw MissingEnvironment
    else
      let apiUrl := JS.orElse (GITHUB_API_URL (env P)) "https://api.github.com" in
      let endpoint :=
        apiUrl +++ "/repos/" +++ JS.interpolate (INPUT_REPOSITORY (env P)) +++
        "/issues/" +++ JS.interpolate (INPUT_PULL_REQUEST_NUMBER (env P)) +++
        "/comments" in
      withRetry
        (Utils.post (commentRequest endpoint (JS.interpolate token) message))
        "push comment" (maxRetries (config P)).

Definition requestData (prompt model : string) (system : option string) : JSON :=
  JObj [("prompt", JStr (JS.trim prompt));
        ("model", JStr model);
        ("stream", JBool false);
        ("system", JStr (JS.orElse system (systemPrompt P)));
        ("options",
         JObj [("tfs_z", JNum (3 # 2));
               ("top_k", JNum (30 # 1));
               ("top_p", JNum (4 # 5));
               ("temperature", JNum (7 # 10));
               ("num_ctx", JNum (10240 # 1))])].

Definition generateRequest (host : string) (token : option string)
    (body : JSON) : Request :=
  mkRequest (host +++ "/api/generate") body
    [("Authorization",
      if JS.truthyStr token then "Bearer " +++ JS.interpolate token else "");
     ("Content-Type", "application/json")]
    30000.

Definition throwIf (cond : bool) (e : Error) : M unit :=
  if cond then throw e else ret tt.

Definition throwIfField (field : option JSON) (mk : JSON -> Error) : M unit :=
  match field with
  | Some v => throwIf (truthy v) (mk v)
  | None => ret tt
  end.

Definition validateResponse (response : JSON) : M JSON :=
  throwIf (negb (truthy response)) EmptyResponse ;;;
  throwIfField (prop response "error") ServiceError ;;;
  throwIfField (prop response "detail") ServiceDetail ;;;
  throwIf (negb (truthyProp (prop response "response"))) NoContent ;;;
  ret response.

Definition generateOnce (host : string) (token : option string)
    (body : JSON) : M JSON :=
  response <- Utils.post (generateRequest host token body) ;;
  validateResponse response.

Definition aiGenerate (host : string) (token : option string)
    (prompt : option string) (model : string) (system : option string)
    : M JSON :=
  match prompt with
  | None => throw EmptyPrompt
  | Some prompt =>
      if negb (JS.nonempty (JS.trim prompt)) then throw EmptyPrompt
      else
        withRetry
          (generateOnce host token (requestData prompt model system))
          "AI generation" 2
  end.

Definition notIncluded (file : string) : bool :=
  (0 <? List.length (includeFiles (config P)))%nat &&
  negb (Utils.doesAnyPatternMatch (includeFiles (config P)) file).

Definition excluded (file : string) : bool :=
  (0 <? List.length (excludeFiles (config P)))%nat &&
  Utils.doesAnyPatternMatch (excludeFiles (config P)) file.

Definition inScope (file : string) : bool :=
  negb (notIncluded file) && negb (excluded file).

Definition changedFiles (diffOutput : string) : list string :=
  filter (fun file => JS.nonempty (JS.trim file))
    (JS.split (ascii_of_nat 10) (JS.trim diffOutput)).

(** The loop of both older collectors: the diff text is kept whole. *)
Fixpoint collectLoop (diffCommand : string -> string) (files : list string)
    (items : list DiffItem) : M (list DiffItem) :=
  match files with
  | [] => ret items
  | file :: rest =>
      if negb (JS.nonempty (JS.trim file)) then
        collectLoop diffCommand rest items
      else if notIncluded file then collectLoop diffCommand rest items
      else if excluded file then collectLoop diffCommand rest items
      else
        items' <- tryCatch
          (fileDiffOutput <- execSync (diffCommand file) ;;
           if JS.nonempty (JS.trim fileDiffOutput)
           then ret (items ++ [mkDiffItem file fileDiffOutput])
           else ret items)
          (fun _ => ret items) ;;
        collectLoop diffCommand rest items'
  end.

Definition dq : string := String (ascii_of_nat 34) EmptyString.

Definition prDiffCommand (baseRef file : string) : string :=
  "git diff origin/" +++ baseRef +++ "...HEAD -- " +++ dq +++ file +++ dq.

Definition headDiffCommand (file : string) : string :=
  "git diff HEAD^ -- " +++ dq +++ file +++ dq.

Definition getPrDiffContext : M (list DiffItem) :=
  let baseRef := JS.orElse (INPUT_BASE_REF (env P)) "main" in
  _ <- execSync ("git fetch origin " +++ baseRef) ;;
  diffOutput <- execSync ("git diff --name-only origin/" +++ baseRef +++ "...HEAD") ;;
  let files := changedFiles diffOutput in
  if (List.length files =? 0)%nat then ret []
  else collectLoop (prDiffCommand baseRef) files [].

Definition getHeadDiffContext : M (list DiffItem) :=
  diffOutput <- execSync "git diff --name-only HEAD^" ;;
  let files := changedFiles diffOutput in
  collectLoop headDiffCommand files [].

Definition stripFence (commit : string) : string :=
  if JS.startsWith commit "```markdown" then
    let commit := JS.substringFrom commit (JS.len "```markdown") in
    if JS.endsWith commit "```"
    then JS.substring commit 0 (JS.len commit - 3)
    else commit
  else commit.

(** The same title as in the enhanced pipeline, robot emoji included. *)
Definition reviewTitle : string := "🤖 AI Code Review".

Definition commitShaUrl : string :=
  JS.orElse (GITHUB_SERVER_URL (env P)) "https://github.com" +++ "/" +++
  JS.interpolate (INPUT_REPOSITORY (env P)) +++ "/commit/" +++
  JS.interpolate (GITHUB_SHA (env P)).

Definition formatComment (item : DiffItem) (commit : string) : string :=
  let fileUrl := commitShaUrl +++ "/" +++ path item in
  "# " +++ reviewTitle +++ JS.nl +++
  "**File:** [" +++ path item +++ "](" +++ fileUrl +++ ")" +++ JS.nl +++ JS.nl +++
  JS.trim commit.

Definition reviewItem (item : DiffItem) : M unit :=
  response <- aiGenerate (url P) (INPUT_AI_TOKEN (env P))
                (Some (context item)) (model P) (INPUT_REVIEW_PROMPT (env P)) ;;
  match prop response "response" with
  | Some (JStr commit) =>
      resp <- pushComments (formatComment item (stripFence commit)) ;;
      if negb (truthyProp (prop resp "id")) then throw NoResponseId
      else ret tt
  | _ => throw JsTypeError
  end.

(** The older loop keeps the two counters only; [failedFiles] stays as it
    is. *)
Fixpoint reviewLoop (items : list DiffItem) (c : Counters)
    (w : World) : Counters * World :=
  match items with
  | [] => (c, w)
  | item :: rest =>
      match reviewItem item w with
      | (Ok _, w') =>
          reviewLoop rest
            (mkCounters (S (successCount c)) (errorCount c) (failedFiles c)) w'
      | (Throw _, w') =>
          reviewLoop rest
            (mkCounters (successCount c) (S (errorCount c)) (failedFiles c)) w'
      end
  end.

Definition noCounts : Counters := mkCounters 0 0 [].

Definition classify (total : nat) (c : Counters) : M unit :=
  throwIf ((0 <? errorCount c)%nat && (successCount c =? 0)%nat)
    (AllFailed total).

Definition aiCheckDiffContextBody : M unit :=
  items <- (if reviewPullRequest (config P)
            then getPrDiffContext else getHeadDiffContext) ;;
  if (List.length items =? 0)%nat then ret tt
  else
    fun w =>
      let (c, w') := reviewLoop items noCounts w in
      classify (List.length items) c w'.

Definition aiCheckDiffContext (w : World) : Termination * World :=
  match aiCheckDiffContextBody w with
  | (Ok _, w') => (Returned, w')
  | (Throw _, w') => (ProcessExit 1, w')
  end.

End Pipeline.

End Old.

(* ================================================================== *)
(** * Start-up: the inputs of the action *)
(* ================================================================== *)

Module Startup.

(** [s.includes(c)] for a one-character string [c]. *)
Fixpoint includesChar (s : string) (c : ascii) : bool :=
  match s with
  | EmptyString => false
  | String d s' => Ascii.eqb d c || includesChar s' c
  end.

(** The class [[\r\n]] of the separator of [split_message]. *)
Definition isLineBreak (c : ascii) : bool :=
  Ascii.eqb c (ascii_of_nat 10) || Ascii.eqb c (ascii_of_nat 13).

(** [s.split(/[\r\n]+/)], from a position that is inside a run of line
    breaks ([inRun]) or not: a maximal run ends one piece and starts the
    next; the head of the result is the piece being read. *)
Fixpoint splitRuns (inRun : bool) (s : string) : list string :=
  match s with
  | EmptyString => [EmptyString]
  | String c s' =>
      if isLineBreak c then
        if inRun then splitRuns true s'
        else EmptyString :: splitRuns true s'
      else match splitRuns false s' with
           | [] => [String c EmptyString]
           | l :: ls => String c l :: ls
           end
  end.

(** [split_message] of [src/utils.ts]. *)
Definition split_message (files : string) : list string :=
  if negb (JS.nonempty files) then []
  else
    let trimmedFiles := JS.trim files in
    if negb (JS.nonempty trimmedFiles) then []
    else
      let hasNewlines :=
        includesChar trimmedFiles (ascii_of_nat 10) ||
        includesChar trimmedFiles (ascii_of_nat 13) in
      let result :=
        if hasNewlines then splitRuns false trimmedFiles
        else JS.split "," trimmedFiles in
      filter (fun item => 0 <? JS.len item) (map JS.trim result).

(** The [config] of the enhanced pipeline, from the raw inputs
    [INPUT_INCLUDE_FILES] and [INPUT_EXCLUDE_FILES] (possibly unset) and the
    mode flag. *)
Definition enhancedConfig (rawInclude rawExclude : option string)
    (reviewPullRequest : bool) : Config :=
  Enhanced.defaultConfig
    (split_message (JS.orElse rawInclude ""))
    (split_message (JS.orElse rawExclude ""))
    reviewPullRequest.

(** The [config] of the older pipeline. *)
Definition oldConfig (rawInclude rawExclude : option string)
    (reviewPullRequest : bool) : Config :=
  Old.defaultConfig
    (split_message (JS.orElse rawInclude ""))
    (split_message (JS.orElse rawExclude ""))
    reviewPullRequest.

(** [process.env.X?.trim()] *)
Definition trimmedInput (raw : option string) : option string :=
  match raw with
  | Some s => Some (JS.trim s)
  | None => None
  end.

(** [validateEnvironment], the same in both pipelines: the validated [url]
    and [model], or [None] when it ends the process with code 1.
    [URL_parses] tells whether [new URL(url)] succeeds. *)
Definition validateEnvironment (URL_parses : string -> bool)
    (INPUT_HOST INPUT_MODEL : option string) : option (string * string) :=
  let url := trimmedInput INPUT_HOST in
  let model := trimmedInput INPUT_MODEL in
  if negb (JS.truthyStr url) then None
  else if negb (JS.truthyStr model) then None
  else if negb (URL_parses (JS.interpolate url)) then None
  else Some (JS.interpolate url, JS.interpolate model).

End Startup.

(* ================================================================== *)
(** * The end of an HTTP exchange in [src/utils.ts] *)
(* ================================================================== *)

Module Http.

(** Why the promise of [post] or [get] is rejected when the response has
    been read. *)
Inductive Rejection : Type :=
| EmptyBody                (* "Empty response body when JSON was expected" *)
| HttpStatus (code : Z)    (* `HTTP ${statusCode}: ${res.statusMessage}. Response: ...` *)
| ParseFailed.             (* `Failed to parse response: ...` *)

Inductive Settled : Type :=
| Resolved (value : JSON)
| Rejected (why : Rejection).

(** [statusCode < 200 || statusCode >= 300] *)
Definition badStatus (statusCode : Z) : bool :=
  (statusCode <? 200) || (300 <=? statusCode).

(** The handler of the [end] event, the same in [post] and [get].
    [res.statusCode] may be undefined and then counts as 0; [JSON_parse]
    is the built-in parser, [None] when it throws. *)
Definition onEnd (JSON_parse : string -> option JSON) (json : bool)
    (res_statusCode : option Z) (responseBody : string) : Settled :=
  let statusCode := match res_statusCode with Some c => c | None => 0 end in
  if json then
    if negb (JS.nonempty (JS.trim responseBody)) then Rejected EmptyBody
    else
      match JSON_parse responseBody with
      | None => Rejected ParseFailed
      | Some parsedResponse =>
          if badStatus statusCode then Rejected (HttpStatus statusCode)
          else Resolved parsedResponse
      end
  else
    if badStatus statusCode then Rejected (HttpStatus statusCode)
    else Resolved (JStr responseBody).

End Http.

(* ================================================================== *)
(** * Observations used in the statements *)
(* ================================================================== *)

(** The world [w] after the timer delays [ds], oldest first. *)
Definition afterWaits (ds : list Z) (w : World) : World :=
  mkWorld (oracle w) (io w) (waits w ++ ds).

(** The outcomes of [n] consecutive runs of an operation from [w], and the
    world after the last of them. *)
Fixpoint attempts {T} (op : M T) (n : nat) (w : World)
    : list (Result T) * World :=
  match n with
  | O => ([], w)
  | S n' =>
      let (r, w1) := op w in
      let (rs, w2) := attempts op n' w1 in
      (r :: rs, w2)
  end.

(** The operation run once and then once more after each delay of [ds]:
    the outcomes in order, and the world after the last run. *)
Fixpoint attemptsAfter {T} (op : M T) (ds : list Z) (w : World)
    : list (Result T) * World :=
  let (r, w1) := op w in
  match ds with
  | [] => ([r], w1)
  | d :: ds' =>
      let (rs, w2) := attemptsAfter op ds' (sleepWorld d w1) in
      (r :: rs, w2)
  end.

(** An operation that neither reads nor sets timers: a delay before it is
    a delay after it. *)
Definition timerOblivious {T} (op : M T) : Prop :=
  forall ms w, op (sleepWorld ms w) = (fst (op w), sleepWorld ms (snd (op w))).

(** An outcome that the [catch] block of [withRetry] can handle: a value,
    or an error whose message can be read. *)
Definition readable {T} (r : Result T) : bool :=
  match r with
  | Ok _ => true
  | Throw e => hasMessage e
  end.

(** An operation that rejects with [Error] objects only, as the type
    assertion [error as Error] of [withRetry] takes for granted. *)
Definition rejectsWithErrors {T} (op : M T) : Prop :=
  forall w e w', op w = (Throw e, w') -> hasMessage e = true.


(** The attempt numbers [a, a+1, ...], [k] of them. *)
Fixpoint attemptsFrom (a : Z) (k : nat) : list Z :=
  match k with
  | O => []
  | S k' => a :: attemptsFrom (a + 1) k'
  end.


(** The requests sent through [post] while [m] runs from [w]. *)
Definition sentBy {A} (m : M A) (w : World) : list Request :=
  skipn (List.length (posts (io w))) (posts (io (snd (m w)))).

(** The bodies the checks of [aiGenerate] refuse, each check a test of
    truthiness: a falsy body, a truthy [error], a truthy [detail], a
    [response] that is missing or falsy. *)
Definition invalidBody (body : JSON) : bool :=
  negb (truthy body) ||
  truthyProp (prop body "error") ||
  truthyProp (prop body "detail") ||
  negb (truthyProp (prop body "response")).

(** The body has a property [key] of its own, whatever its value. *)
Definition carriesField (body : JSON) (key : string) : bool :=
  match prop body key with Some _ => true | None => false end.

(** The [response] of the body is a string that is not empty. *)
Definition hasText (body : JSON) : bool :=
  match prop body "response" with
  | Some (JStr text) => JS.nonempty text
  | _ => false
  end.

(** The bodies that are failures in the words of the specification: an
    absent body, a body that carries an explicit error or detail field, a
    body that lacks a non-empty text field. *)
Definition refusedAsWorded (body : JSON) : bool :=
  match body with JNull => true | _ => false end ||
  carriesField body "error" ||
  carriesField body "detail" ||
  negb (hasText body).

(** Whether [new RegExp(pattern)] succeeds. *)
Definition compiles {engine : RegExpEngine} (pattern : string) : bool :=
  match RegExp_new pattern with Some _ => true | None => false end.

(** [arr.length === 0] *)
Definition isEmpty {A} (l : list A) : bool :=
  match l with [] => true | _ :: _ => false end.

(** The outcome of a collector, reduced to the paths of its items. *)
Definition pathsOf (out : Result (list DiffItem) * World)
    : Result (list string) * World :=
  match out with
  | (Ok items, w) => (Ok (map path items), w)
  | (Throw e, w) => (Throw e, w)
  end.

(** A computation whose requests, if any, are copies of [req]. *)
Definition onlySends {A} (req : Request) (m : M A) : Prop :=
  forall w, exists n, posts (io (snd (m w))) = posts (io w) ++ repeat req n.

(** The outcome of the [try] block for each item, in order, when the
    review loop runs from index [i] in world [w]. *)
Fixpoint itemResults (P : Program) (i : nat) (items : list DiffItem)
    (w : World) : list (Result unit) :=
  match items with
  | [] => []
  | item :: rest =>
      let (r, w') := Enhanced.reviewItem P i item w in
      r :: itemResults P (S i) rest w'
  end.

(** The paths of the items whose outcome is a failure, in order, one entry
    for each such item. *)
Fixpoint failedPaths (items : list DiffItem) (results : list (Result unit))
    : list string :=
  match items, results with
  | item :: items', r :: results' =>
      if isOk r then failedPaths items' results'
      else path item :: failedPaths items' results'
  | _, _ => []
  end.

Definition countOk (results : list (Result unit)) : nat :=
  List.length (filter isOk results).

Definition countFailed (results : list (Result unit)) : nat :=
  List.length (filter (fun r => negb (isOk r)) results).

(** A string with a character that [trim] keeps. *)
Definition hasVisible (s : string) : bool :=
  existsb (fun c => negb (JS.is_whitespace c)) (list_ascii_of_string s).

(** The characters of a string after its leading white space. *)
Fixpoint dropWs (l : list ascii) : list ascii :=
  match l with
  | [] => []
  | c :: l' => if JS.is_whitespace c then dropWs l' else l
  end.

(** [l1] is [l2] with some elements left out, the order kept. *)
Inductive Subsequence {A : Type} : list A -> list A -> Prop :=
| sub_nil : Subsequence [] []
| sub_skip (x : A) (l1 l2 : list A) :
    Subsequence l1 l2 -> Subsequence l1 (x :: l2)
| sub_keep (x : A) (l1 l2 : list A) :
    Subsequence l1 l2 -> Subsequence (x :: l1) (x :: l2).

(** A computation that sends exactly one request, [req], each time it
    runs. *)
Definition sendsOne {A} (req : Request) (m : M A) : Prop :=
  forall w, posts (io (snd (m w))) = posts (io w) ++ [req].

(** A computation that leaves the oracle of the world in place. *)
Definition keepsOracle {A} (m : M A) : Prop :=
  forall w, oracle (snd (m w)) = oracle w.

(** The interactions added while [m] runs from [w]. *)
Definition eventsOf {A} (m : M A) (w : World) : list IOEvent :=
  skipn (List.length (io w)) (io (snd (m w))).

(** A generation service that never delivers: each request is refused or
    answered with a body the client has to refuse. *)
Definition neverDelivers (o : Oracle) : Prop :=
  forall history r,
    match net_post o history r with
    | Resolve body => invalidBody body = true
    | Reject _ => True
    end.

(** A generation service that always delivers a review: each request is
    answered with a valid body whose text is a string. *)
Definition alwaysDelivers (o : Oracle) : Prop :=
  forall history r,
    exists body text,
      net_post o history r = Resolve body /\
      invalidBody body = false /\
      prop body "response" = Some (JStr text).

(** A pattern as [split_message] returns it: not empty, trimmed, without
    line break. *)
Definition cleanEntry (p : string) : Prop :=
  p <> EmptyString /\ JS.trim p = p /\
  Startup.includesChar p (ascii_of_nat 10) = false /\
  Startup.includesChar p (ascii_of_nat 13) = false.

(** A list that starts with a character [trim] keeps. *)
Definition startsVisible (l : list ascii) : Prop :=
  match l with
  | x :: _ => JS.is_whitespace x = false
  | [] => False
  end.

Section CollectorObservations.
Context {engine : RegExpEngine}.
Variable P : Program.

(** What a collected item is: the path of a listed file that is in scope,
    with the capped output of the diff command for that file. *)
Definition collected (cmd : string -> string) (files : list string)
    (o : Oracle) (it : DiffItem) : Prop :=
  In (path it) files /\
  Enhanced.inScope P (path it) = true /\
  exists history D,
    exec o history (cmd (path it)) = Stdout D /\
    JS.nonempty (JS.trim D) = true /\
    context it = Enhanced.limitDiff D.

(** The collector of the configured mode, as [aiCheckDiffContext] of the
    enhanced pipeline selects it. *)
Definition collector : M (list DiffItem) :=
  if reviewPullRequest (config P)
  then Enhanced.getPrDiffContext P else Enhanced.getHeadDiffContext P.

End CollectorObservations.

(* ================================================================== *)
(** * Sample inputs *)
(* ================================================================== *)

Module Example.

Definition isMeta (c : ascii) : bool :=
  existsb (Ascii.eqb c) (list_ascii_of_string "\^$.|?*+()[]{}").

Fixpoint occursIn (sub s : string) : bool :=
  match s with
  | EmptyString => String.prefix sub s
  | String _ s' => String.prefix sub s || occursIn sub s'
  end.

(** An engine for the sample inputs.  A pattern made of plain characters is
    searched as a substring, which is how JavaScript matches it; a pattern
    with a metacharacter is refused, which is what JavaScript does with the
    pattern [(] of the samples. *)
Definition literalEngine : RegExpEngine :=
  {| RegExp := string;
     RegExp_new := fun pattern =>
       if existsb isMeta (list_ascii_of_string pattern) then None
       else Some pattern;
     RegExp_test := fun regex str => occursIn regex str |}.

(** No variable of the environment is set. *)
Definition noEnv : Env := mkEnv None None None None None None None None None.

Definition program (cfg : Config) (e : Env) : Program :=
  mkProgram cfg e "http://localhost:11434" "codellama" "You are a code reviewer.".

(** An outside that answers the [n]-th [post] with the [n]-th entry of
    [script] (and refuses the connection after that), accepts every [get],
    and runs commands as [run] says. *)
Definition scripted (script : list NetOutcome) (run : string -> ExecOutcome)
    : Oracle :=
  mkOracle
    (fun history _ => nth (List.length (posts history)) script
                        (Reject "connection refused"))
    (fun _ _ => Resolve (JObj []))
    (fun _ cmd => run cmd)
    (fun _ => "2024-01-01T00:00:00.000Z").

Definition noCommands (cmd : string) : ExecOutcome := ExecError "not a repository".

(** The world before the program starts. *)
Definition start (o : Oracle) : World := mkWorld o [] [].


Definition created : JSON := JObj [("id", JNum (42 # 1))].

(** A commit that changes two files. *)
Definition headRepo (cmd : string) : ExecOutcome :=
  if (cmd =? "git diff --name-only HEAD^")%string then
    Stdout ("src/index.ts" +++ JS.nl +++ "src/utils.test.ts" +++ JS.nl)
  else if (cmd =? Enhanced.headDiffCommand "src/index.ts")%string then
    Stdout "+const a = 1;"
  else if (cmd =? Enhanced.headDiffCommand "src/utils.test.ts")%string then
    Stdout "+test();"
  else ExecError "unknown command".

(** A diff of 10001 characters. *)
Definition longDiff : string :=
  string_of_list_ascii (repeat "a"%char (Z.to_nat 10001)).

(** The body the generation service sends for an unknown model. *)
Definition modelNotFound : JSON := JObj [("error", JStr "model not found")].

(** A body with a review. *)
Definition reviewed : JSON := JObj [("response", JStr "Looks good to me.")].

(** The sample program of the enhanced pipeline: every file in scope, commit
    mode, nothing set in the environment. *)
Definition enhanced : Program :=
  program (Enhanced.defaultConfig [] [] false) noEnv.

(** A pull request number is configured, a repository and a token are not. *)
Definition numberOnly : Env :=
  mkEnv (Some "7") None None None None None None None None.

(** The sample commit in the all-inclusive commit mode. *)
Definition twoFiles (script : list NetOutcome) : World :=
  start (scripted script headRepo).

(** A repository where the diff of [src/index.ts] cannot be read. *)
Definition brokenFile (cmd : string) : ExecOutcome :=
  if (cmd =? "git diff --name-only HEAD^")%string then
    Stdout ("src/index.ts" +++ JS.nl +++ "src/utils.test.ts" +++ JS.nl)
  else if (cmd =? Enhanced.headDiffCommand "src/utils.test.ts")%string then
    Stdout "+test();"
  else ExecError "fatal: bad object".

(** A repository where the fetch succeeds and the base branch cannot be
    compared. *)
Definition noMergeBase (cmd : string) : ExecOutcome :=
  if (cmd =? "git fetch origin main")%string then Stdout EmptyString
  else ExecError "fatal: no merge base".

(** An outside where the generation service cannot be reached at all. *)
Definition unreachable : Oracle :=
  mkOracle
    (fun _ _ => Reject "connection refused")
    (fun _ _ => Reject "connection refused")
    (fun _ cmd => headRepo cmd)
    (fun _ => "2024-01-01T00:00:00.000Z").

(** A pull request number, a repository and a token are configured. *)
Definition publishing : Env :=
  mkEnv (Some "7") (Some "owner/repo") (Some "secret") None None None None None None.

(** An outside where the generation service answers every request with a
    review, on the sample commit. *)
Definition reviewing : Oracle :=
  mkOracle
    (fun _ _ => Resolve reviewed)
    (fun _ _ => Resolve (JObj []))
    (fun _ cmd => headRepo cmd)
    (fun _ => "2024-01-01T00:00:00.000Z").

End Example.

(* ================================================================== *)
(** * Facts about strings *)
(* ================================================================== *)

Lemma length_append (a b : string) :
  String.length (a +++ b) = (String.length a + String.length b)%nat.
Proof.
  induction a as [|c a IH]; simpl; [reflexivity | now rewrite IH].
Qed.

Lemma len_append (a b : string) : JS.len (a +++ b) = JS.len a + JS.len b.
Proof. unfold JS.len. rewrite length_append. lia. Qed.

Lemma len_nonneg (s : string) : 0 <= JS.len s.
Proof. unfold JS.len. lia. Qed.

Lemma length_substring (s : string) : forall n m,
  String.length (String.substring n m s) = Nat.min m (String.length s - n).
Proof.
  induction s as [|c s IH]; intros [|n] [|m]; simpl; try reflexivity.
  - now rewrite IH, Nat.sub_0_r.
  - now rewrite IH.
  - now rewrite IH.
Qed.

Lemma len_substring_0 (s : string) (b : Z) :
  JS.len (JS.substring s 0 b) = Z.max 0 (Z.min b (JS.len s)).
Proof.
  unfold JS.substring, JS.clamp, JS.len.
  rewrite length_substring. lia.
Qed.

Lemma substring_append_left (a b : string) :
  String.substring 0 (String.length a) (a +++ b) = a.
Proof.
  induction a as [|c a IH]; simpl.
  - now destruct b.
  - now rewrite IH.
Qed.

Lemma js_substring_append_left (a b : string) :
  JS.substring (a +++ b) 0 (JS.len a) = a.
Proof.
  unfold JS.substring, JS.clamp.
  rewrite len_append.
  pose proof (len_nonneg a). pose proof (len_nonneg b).
  replace (Z.min (Z.max 0 (Z.min 0 (JS.len a + JS.len b)))
             (Z.max 0 (Z.min (JS.len a) (JS.len a + JS.len b)))) with 0 by lia.
  replace (Z.max (Z.max 0 (Z.min 0 (JS.len a + JS.len b)))
             (Z.max 0 (Z.min (JS.len a) (JS.len a + JS.len b))) - 0)
    with (JS.len a) by lia.
  unfold JS.len. rewrite Nat2Z.id. simpl. apply substring_append_left.
Qed.

Lemma substring_full (s : string) :
  String.substring 0 (String.length s) s = s.
Proof.
  induction s as [|c s IH]; simpl; [reflexivity | now rewrite IH].
Qed.



(* ================================================================== *)
(** * The size caps: [limitDiff] and [truncatePrompt] *)
(* ================================================================== *)




Lemma truncatePrompt_short (p : string) (L : Z) :
  JS.len p <= L -> Enhanced.truncatePrompt p L = p.
Proof.
  intros H. unfold Enhanced.truncatePrompt.
  destruct (Z.leb_spec (JS.len p) L); [reflexivity | lia].
Qed.

Lemma truncatePrompt_length (p : string) (L : Z) :
  50 <= L -> JS.len (Enhanced.truncatePrompt p L) <= L.
Proof.
  intros HL. unfold Enhanced.truncatePrompt.
  destruct (Z.leb_spec (JS.len p) L) as [Hfit | Hlong]; [exact Hfit|].
  assert (Hsimple :
    JS.len (JS.substring p 0 (L - 50) +++
            JS.nl +++ JS.nl +++ "[... truncated for length ...]") <= L).
  { rewrite !len_append, len_substring_0.
    change (JS.len JS.nl) with 1.
    change (JS.len "[... truncated for length ...]") with 30. lia. }
  destruct (10 <? List.length (JS.split (ascii_of_nat 10) p))%nat;
    [|exact Hsimple].
  match goal with
  | |- context [if ?c then _ else _] => destruct (Z.leb_spec0 _ _ : reflect _ c)
  end; [assumption | exact Hsimple].
Qed.

(* ================================================================== *)
(** * The retry executor *)
(* ================================================================== *)

Lemma afterWaits_nil (w : World) : afterWaits [] w = w.
Proof. destruct w. unfold afterWaits. simpl. now rewrite app_nil_r. Qed.

Lemma afterWaits_cons (d : Z) (ds : list Z) (w : World) :
  afterWaits ds (sleepWorld d w) = afterWaits (d :: ds) w.
Proof. unfold afterWaits, sleepWorld. simpl. now rewrite <- app_assoc. Qed.

Lemma attempts_S {T} (op : M T) (n : nat) (w : World) :
  attempts op (S n) w =
  (fst (op w) :: fst (attempts op n (snd (op w))),
   snd (attempts op n (snd (op w)))).
Proof.
  simpl. destruct (op w) as [r w1]. simpl. now destruct (attempts op n w1).
Qed.

Lemma attempts_sleep {T} (op : M T) (ms : Z) :
  timerOblivious op ->
  forall n w,
    attempts op n (sleepWorld ms w) =
    (fst (attempts op n w), sleepWorld ms (snd (attempts op n w))).
Proof.
  intros Hop. induction n as [|n IH]; intros w; simpl; [reflexivity|].
  rewrite Hop. destruct (op w) as [r w1]; simpl.
  rewrite IH. now destruct (attempts op n w1).
Qed.

Lemma post_timerOblivious (r : Request) : timerOblivious (Utils.post r).
Proof.
  intros ms w. unfold Utils.post. simpl.
  now destruct (net_post (oracle w) (io w) r).
Qed.

Section RetryFacts.
Variable P : Program.
Context {T : Type}.
Variable operation : M T.
Variable maxRetries : Z.
Variable useExponentialBackoff : bool.
Hypothesis oblivious : timerOblivious operation.

(** The loop, started at [attempt]: the operation fails on each of the
    attempts listed in [errs], and [r] is the outcome of the next one,
    which is a success or the last attempt allowed. *)
Lemma withRetryLoop_run : forall errs r fuel attempt lastError w wf,
  attempts operation (S (List.length errs)) w = (map Throw errs ++ [r], wf) ->
  attempt + Z.of_nat (List.length errs) <= maxRetries ->
  (List.length errs < fuel)%nat ->
  isOk r = true \/ attempt + Z.of_nat (List.length errs) = maxRetries ->
  forallb readable (map Throw errs ++ [r]) = true ->
  Enhanced.withRetryLoop P operation maxRetries useExponentialBackoff
    fuel attempt lastError w =
  (r, afterWaits
        (map (Enhanced.retryWait P useExponentialBackoff)
           (attemptsFrom attempt (List.length errs))) wf).
Proof.
  induction errs as [|e errs IH];
    intros r fuel attempt lastError w wf Hrun Hle Hfuel Hlast Hread.
  - simpl in *. destruct fuel as [|fuel]; [lia|]. simpl.
    destruct (Z.leb_spec attempt maxRetries); [|lia].
    unfold tryCatch. destruct (operation w) as [r0 w1].
    injection Hrun as <- <-. rewrite afterWaits_nil.
    destruct r0 as [v|e]; [reflexivity|].
    destruct Hlast as [Hok|Hmax]; [discriminate|].
    rewrite andb_true_r in Hread. cbn [readable] in Hread.
    rewrite Hread. cbn [negb].
    destruct (Z.ltb_spec attempt maxRetries); [lia|].
    unfold bind, ret. destruct fuel as [|fuel]; simpl; [reflexivity|].
    destruct (Z.leb_spec (attempt + 1) maxRetries); [lia | reflexivity].
  - destruct fuel as [|fuel]; [simpl in Hfuel; lia|].
    cbn [List.length] in *. rewrite attempts_S in Hrun.
    destruct (operation w) as [r0 w1] eqn:Hop. cbn [fst snd] in Hrun.
    destruct (attempts operation (S (List.length errs)) w1) as [rs w2] eqn:Hrest.
    cbn [map app fst snd] in Hrun. injection Hrun as -> -> ->.
    cbn [map app forallb readable] in Hread.
    apply andb_true_iff in Hread. destruct Hread as [He Hread].
    cbn [Enhanced.withRetryLoop].
    destruct (Z.leb_spec attempt maxRetries); [|lia].
    unfold tryCatch at 1. rewrite Hop, He. cbn [negb].
    destruct (Z.ltb_spec attempt maxRetries); [|lia].
    unfold bind at 1, sleep.
    cbn [attemptsFrom map]. rewrite <- afterWaits_cons.
    apply IH; try lia.
    + rewrite (attempts_sleep _ _ oblivious), Hrest. reflexivity.
    + destruct Hlast as [Hok|Hmax]; [now left | right; lia].
    + exact Hread.
Qed.

End RetryFacts.

Section RetrySchedule.
Variable P : Program.
Context {T : Type}.
Variable operation : M T.
Variable maxRetries : Z.
Variable useExponentialBackoff : bool.

(** The loop, started at [attempt], for any operation: it runs the
    operation, and after each failure but the last allowed one it waits and
    runs it again. *)
Lemma withRetryLoop_schedule : forall errs r fuel attempt lastError w wf,
  attemptsAfter operation
    (map (Enhanced.retryWait P useExponentialBackoff)
       (attemptsFrom attempt (List.length errs))) w
    = (map Throw errs ++ [r], wf) ->
  attempt + Z.of_nat (List.length errs) <= maxRetries ->
  (List.length errs < fuel)%nat ->
  isOk r = true \/ attempt + Z.of_nat (List.length errs) = maxRetries ->
  forallb readable (map Throw errs ++ [r]) = true ->
  Enhanced.withRetryLoop P operation maxRetries useExponentialBackoff
    fuel attempt lastError w = (r, wf).
Proof.
  induction errs as [|e errs IH];
    intros r fuel attempt lastError w wf Hrun Hle Hfuel Hlast Hread.
  - simpl in *. destruct fuel as [|fuel]; [lia|]. simpl.
    destruct (Z.leb_spec attempt maxRetries); [|lia].
    unfold tryCatch. destruct (operation w) as [r0 w1].
    injection Hrun as <- <-.
    destruct r0 as [v|e]; [reflexivity|].
    destruct Hlast as [Hok|Hmax]; [discriminate|].
    rewrite andb_true_r in Hread. cbn [readable] in Hread.
    rewrite Hread. cbn [negb].
    destruct (Z.ltb_spec attempt maxRetries); [lia|].
    unfold bind, ret. destruct fuel as [|fuel]; simpl; [reflexivity|].
    destruct (Z.leb_spec (attempt + 1) maxRetries); [lia | reflexivity].
  - destruct fuel as [|fuel]; [simpl in Hfuel; lia|].
    cbn [List.length attemptsFrom map attemptsAfter] in *.
    destruct (operation w) as [r0 w1] eqn:Hop.
    destruct (attemptsAfter operation _ (sleepWorld _ w1)) as [rs w2] eqn:Hrest.
    cbn [map app] in Hrun. injection Hrun as -> -> ->.
    cbn [map app forallb readable] in Hread.
    apply andb_true_iff in Hread. destruct Hread as [He Hread].
    cbn [Enhanced.withRetryLoop].
    destruct (Z.leb_spec attempt maxRetries); [|lia].
    unfold tryCatch at 1. rewrite Hop, He. cbn [negb].
    destruct (Z.ltb_spec attempt maxRetries); [|lia].
    unfold bind at 1, sleep.
    apply IH; try lia.
    + exact Hrest.
    + destruct Hlast as [Hok|Hmax]; [now left | right; lia].
    + exact Hread.
Qed.


End RetrySchedule.


Lemma old_withRetryLoop_fixed {T} (P : Program) (operation : M T) (maxRetries : Z) :
  forall fuel attempt lastError w,
    Old.withRetryLoop P operation maxRetries fuel attempt lastError w =
    Enhanced.withRetryLoop P operation maxRetries false fuel attempt lastError w.
Proof.
  induction fuel as [|fuel IH]; intros attempt lastError w; simpl; [reflexivity|].
  destruct (attempt <=? maxRetries); [|reflexivity].
  unfold tryCatch. destruct (operation w) as [[v|e] w1]; [reflexivity|].
  destruct (hasMessage e); [|reflexivity]. cbn [negb].
  unfold bind. destruct (attempt <? maxRetries); simpl; apply IH.
Qed.





(* ================================================================== *)
(** * The pattern filter and the diff collectors *)
(* ================================================================== *)

Section PatternFacts.
Context {engine : RegExpEngine}.

Lemma patternMatches_invalid (str pattern : string) :
  RegExp_new pattern = None -> Utils.patternMatches str pattern = false.
Proof. intros H. unfold Utils.patternMatches. now rewrite H. Qed.

Lemma existsb_filter_compiles (str : string) (patterns : list string) :
  existsb (Utils.patternMatches str) (filter compiles patterns) =
  existsb (Utils.patternMatches str) patterns.
Proof.
  induction patterns as [|p ps IH]; simpl; [reflexivity|].
  destruct (RegExp_new p) as [regex|] eqn:Hp.
  - replace (compiles p) with true by (unfold compiles; now rewrite Hp).
    simpl. now rewrite IH.
  - replace (compiles p) with false by (unfold compiles; now rewrite Hp).
    now rewrite (patternMatches_invalid str p Hp).
Qed.

Lemma doesAnyPatternMatch_existsb (patterns : list string) (str : string) :
  Utils.doesAnyPatternMatch patterns str =
  JS.nonempty str && existsb (Utils.patternMatches str) patterns.
Proof.
  unfold Utils.doesAnyPatternMatch.
  destruct patterns as [|p ps]; simpl.
  - now rewrite andb_false_r.
  - now destruct (JS.nonempty str).
Qed.

Lemma doesAnyPatternMatch_nil (str : string) :
  Utils.doesAnyPatternMatch [] str = false.
Proof. reflexivity. Qed.

(** C5.  [doesAnyPatternMatch] is a total boolean function: it answers
    [false] for an empty pattern list and for an empty candidate; otherwise
    it answers [true] exactly when some pattern of the list compiles and
    matches the candidate.  A pattern that does not compile counts as
    [false] for itself only: the answer is the one for the list without
    it, and for the list without all such patterns. *)
Theorem doesAnyPatternMatch_spec (P : list string) (F : string) :
  Utils.doesAnyPatternMatch [] F = false /\
  Utils.doesAnyPatternMatch P "" = false /\
  (Utils.doesAnyPatternMatch P F = true <->
     F <> "" /\
     exists pattern regex,
       In pattern P /\ RegExp_new pattern = Some regex /\
       RegExp_test regex F = true) /\
  (forall A B pattern,
     P = A ++ pattern :: B -> RegExp_new pattern = None ->
     Utils.doesAnyPatternMatch P F = Utils.doesAnyPatternMatch (A ++ B) F) /\
  Utils.doesAnyPatternMatch P F =
  Utils.doesAnyPatternMatch (filter compiles P) F.
Proof.
  split; [reflexivity|].
  split; [rewrite doesAnyPatternMatch_existsb; reflexivity|].
  split; [|split].
  - rewrite doesAnyPatternMatch_existsb, andb_true_iff, existsb_exists.
    split.
    + intros [HF (pattern & Hin & Hm)]. split.
      * intros ->. discriminate.
      * unfold Utils.patternMatches in Hm.
        destruct (RegExp_new pattern) as [regex|] eqn:Hp; [|discriminate].
        now exists pattern, regex.
    + intros [HF (pattern & regex & Hin & Hp & Hm)]. split.
      * destruct F; [contradiction | reflexivity].
      * exists pattern. split; [exact Hin|].
        unfold Utils.patternMatches. now rewrite Hp.
  - intros A B pattern -> Hbad.
    rewrite !doesAnyPatternMatch_existsb, !existsb_app. simpl.
    now rewrite (patternMatches_invalid F pattern Hbad).
  - now rewrite !doesAnyPatternMatch_existsb, existsb_filter_compiles.
Qed.

End PatternFacts.

(** The pattern [(] does not compile: the answer for the list with it is
    the answer for the list without it. *)
Lemma doesAnyPatternMatch_spec_witness :
  @RegExp_new Example.literalEngine "(" = None /\
  @Utils.doesAnyPatternMatch Example.literalEngine ["("; "src/"] "src/index.ts"
  = @Utils.doesAnyPatternMatch Example.literalEngine ["src/"] "src/index.ts".
Proof.
  split; [reflexivity|].
  exact (proj1 (proj2 (proj2 (proj2
           (@doesAnyPatternMatch_spec Example.literalEngine
              ["("; "src/"] "src/index.ts"))))
           [] ["src/"] "(" eq_refl eq_refl).
Defined.

Section CollectorFacts.
Context {engine : RegExpEngine}.
Variable P : Program.

Lemma inScope_policy (F : string) :
  Enhanced.inScope P F =
  (isEmpty (includeFiles (config P)) ||
   Utils.doesAnyPatternMatch (includeFiles (config P)) F) &&
  negb (Utils.doesAnyPatternMatch (excludeFiles (config P)) F).
Proof.
  unfold Enhanced.inScope, Enhanced.notIncluded, Enhanced.excluded.
  destruct (includeFiles (config P)) as [|i I];
    destruct (excludeFiles (config P)) as [|e E]; simpl;
    rewrite ?negb_involutive; reflexivity.
Qed.

Lemma old_inScope_policy (F : string) :
  Old.inScope P F =
  (isEmpty (includeFiles (config P)) ||
   Utils.doesAnyPatternMatch (includeFiles (config P)) F) &&
  negb (Utils.doesAnyPatternMatch (excludeFiles (config P)) F).
Proof.
  unfold Old.inScope, Old.notIncluded, Old.excluded.
  destruct (includeFiles (config P)) as [|i I];
    destruct (excludeFiles (config P)) as [|e E]; simpl;
    rewrite ?negb_involutive; reflexivity.
Qed.



Lemma collected_weaken (cmd : string -> string) (file : string)
    (files : list string) (o : Oracle) (new : list DiffItem) :
  Forall (collected P cmd files o) new ->
  Forall (collected P cmd (file :: files) o) new.
Proof.
  apply Forall_impl. intros it (Hin & Hrest). split; [now right | exact Hrest].
Qed.

(** The loop never throws, and it extends the array by collected items. *)
Lemma collectLoop_items (cmd : string -> string) :
  forall files items w,
  exists new w',
    Enhanced.collectLoop P cmd files items w = (Ok (items ++ new), w') /\
    oracle w' = oracle w /\
    Forall (collected P cmd files (oracle w)) new.
Proof.
  induction files as [|file rest IH]; intros items w.
  - exists [], w. simpl. unfold ret. rewrite app_nil_r. repeat split. constructor.
  - assert (Hskip :
      exists new w',
        Enhanced.collectLoop P cmd rest items w = (Ok (items ++ new), w') /\
        oracle w' = oracle w /\
        Forall (collected P cmd (file :: rest) (oracle w)) new).
    { destruct (IH items w) as (new & w' & Hrun & Ho & Hall).
      exists new, w'. repeat split; auto using collected_weaken. }
    cbn [Enhanced.collectLoop].
    destruct (negb (JS.nonempty (JS.trim file))) eqn:Hblank; [exact Hskip|].
    destruct (Enhanced.notIncluded P file) eqn:Hni; [exact Hskip|].
    destruct (Enhanced.excluded P file) eqn:Hex; [exact Hskip|].
    clear Hskip. unfold bind, tryCatch, execSync, ret. cbv beta.
    destruct (exec (oracle w) (io w) (cmd file)) as [D|msg] eqn:HD.
    + destruct (JS.nonempty (JS.trim D)) eqn:Hne.
      * destruct (IH (items ++ [mkDiffItem file (Enhanced.limitDiff D)])
                    (record (IoExec (cmd file)) w)) as (new & w' & Hrun & Ho & Hall).
        exists (mkDiffItem file (Enhanced.limitDiff D) :: new), w'.
        rewrite Hrun, <- app_assoc. repeat split; auto.
        constructor; [|apply collected_weaken; exact Hall].
        split; [now left|]. split.
        { cbn [path]. unfold Enhanced.inScope. now rewrite Hni, Hex. }
        exists (io w), D. cbn [path context]. auto.
      * destruct (IH items (record (IoExec (cmd file)) w))
          as (new & w' & Hrun & Ho & Hall).
        exists new, w'. repeat split; auto using collected_weaken.
    + destruct (IH items (record (IoExec (cmd file)) w))
        as (new & w' & Hrun & Ho & Hall).
      exists new, w'. repeat split; auto using collected_weaken.
Qed.

(** Every item either collector returns is in scope and carries a capped
    diff. *)
Lemma collector_items (w w' : World) (items : list DiffItem) :
  Enhanced.getPrDiffContext P w = (Ok items, w') \/
  Enhanced.getHeadDiffContext P w = (Ok items, w') ->
  Forall (fun it =>
            Enhanced.inScope P (path it) = true /\
            exists D, JS.nonempty (JS.trim D) = true /\
                      context it = Enhanced.limitDiff D) items.
Proof.
  assert (Hloop : forall cmd files w0,
            Enhanced.collectLoop P cmd files [] w0 = (Ok items, w') ->
            Forall (fun it =>
              Enhanced.inScope P (path it) = true /\
              exists D, JS.nonempty (JS.trim D) = true /\
                        context it = Enhanced.limitDiff D) items).
  { intros cmd files w0 Hrun.
    destruct (collectLoop_items cmd files [] w0) as (new & w1 & Hnew & _ & Hall).
    rewrite Hnew in Hrun. simpl in Hrun. injection Hrun as -> _.
    eapply Forall_impl; [|exact Hall].
    intros it (_ & Hin & _ & D & _ & Hne & HD). eauto. }
  intros [Hrun | Hrun].
  - unfold Enhanced.getPrDiffContext, bind, execSync in Hrun.
    destruct (exec (oracle w) (io w) _); [|discriminate].
    destruct (exec (oracle _) (io _) _); [|discriminate].
    destruct (_ =? 0)%nat.
    + unfold ret in Hrun. injection Hrun as <- _. constructor.
    + eapply Hloop; exact Hrun.
  - unfold Enhanced.getHeadDiffContext, bind, execSync in Hrun.
    destruct (exec (oracle w) (io w) _); [|discriminate].
    eapply Hloop; exact Hrun.
Qed.

End CollectorFacts.





(* ================================================================== *)
(** * The two pipelines scope alike *)
(* ================================================================== *)

Section Agreement.
Context {engine : RegExpEngine}.
Variables PO PE : Program.
Hypothesis same_include : includeFiles (config PO) = includeFiles (config PE).
Hypothesis same_exclude : excludeFiles (config PO) = excludeFiles (config PE).

Lemma notIncluded_agree (F : string) :
  Old.notIncluded PO F = Enhanced.notIncluded PE F.
Proof. unfold Old.notIncluded, Enhanced.notIncluded. now rewrite same_include. Qed.

Lemma excluded_agree (F : string) :
  Old.excluded PO F = Enhanced.excluded PE F.
Proof. unfold Old.excluded, Enhanced.excluded. now rewrite same_exclude. Qed.

Lemma inScope_agree (F : string) : Old.inScope PO F = Enhanced.inScope PE F.
Proof.
  unfold Old.inScope, Enhanced.inScope.
  now rewrite notIncluded_agree, excluded_agree.
Qed.

Lemma collectLoop_agree (cmd : string -> string) :
  forall files itemsO itemsE w,
    map path itemsO = map path itemsE ->
    pathsOf (Old.collectLoop PO cmd files itemsO w) =
    pathsOf (Enhanced.collectLoop PE cmd files itemsE w).
Proof.
  induction files as [|file rest IH]; intros itemsO itemsE w Hpaths.
  - simpl. unfold ret. now rewrite Hpaths.
  - cbn [Old.collectLoop Enhanced.collectLoop].
    rewrite notIncluded_agree, excluded_agree.
    destruct (negb (JS.nonempty (JS.trim file))); [now apply IH|].
    destruct (Enhanced.notIncluded PE file); [now apply IH|].
    destruct (Enhanced.excluded PE file); [now apply IH|].
    unfold bind, tryCatch, execSync, ret. cbv beta.
    destruct (exec (oracle w) (io w) (cmd file)) as [D|msg]; [|now apply IH].
    destruct (JS.nonempty (JS.trim D)); [|now apply IH].
    apply IH. rewrite !map_app. simpl. now rewrite Hpaths.
Qed.

End Agreement.

(** C10.  With the same include and exclude lists (and the same base
    reference), the older and the enhanced pipeline take the same scoping
    decision for every file, and their collectors, run in the same world,
    return items for the same paths in the same order, after the same
    commands; they fail on the same inputs. *)
Theorem collectors_agree {engine : RegExpEngine} (PO PE : Program) :
  includeFiles (config PO) = includeFiles (config PE) ->
  excludeFiles (config PO) = excludeFiles (config PE) ->
  INPUT_BASE_REF (env PO) = INPUT_BASE_REF (env PE) ->
  (forall F, Old.inScope PO F = Enhanced.inScope PE F) /\
  (forall w, pathsOf (Old.getPrDiffContext PO w) =
             pathsOf (Enhanced.getPrDiffContext PE w)) /\
  (forall w, pathsOf (Old.getHeadDiffContext PO w) =
             pathsOf (Enhanced.getHeadDiffContext PE w)).
Proof.
  intros HI HE HB. split; [|split].
  - intros F. now apply inScope_agree.
  - intros w. unfold Old.getPrDiffContext, Enhanced.getPrDiffContext.
    rewrite HB. unfold bind, execSync.
    destruct (exec (oracle w) (io w) _) as [fetched|]; [|reflexivity].
    destruct (exec (oracle _) (io _) _) as [names|]; [|reflexivity].
    change (Old.changedFiles names) with (Enhanced.changedFiles names).
    destruct (_ =? 0)%nat; [reflexivity|].
    now apply collectLoop_agree.
  - intros w. unfold Old.getHeadDiffContext, Enhanced.getHeadDiffContext.
    unfold bind, execSync.
    destruct (exec (oracle w) (io w) _); [|reflexivity].
    now apply collectLoop_agree.
Qed.

(** On the sample commit with the exclude pattern [test], both collectors
    return the item of [src/index.ts] only. *)
Lemma collectors_agree_witness :
  let PO := Example.program (Old.defaultConfig [] ["test"] false) Example.noEnv in
  let PE := Example.program (Enhanced.defaultConfig [] ["test"] false) Example.noEnv in
  let w := Example.start (Example.scripted [] Example.headRepo) in
  includeFiles (config PO) = includeFiles (config PE) /\
  excludeFiles (config PO) = excludeFiles (config PE) /\
  INPUT_BASE_REF (env PO) = INPUT_BASE_REF (env PE) /\
  fst (pathsOf (@Old.getHeadDiffContext Example.literalEngine PO w))
    = Ok ["src/index.ts"] /\
  fst (pathsOf (@Enhanced.getHeadDiffContext Example.literalEngine PE w))
    = Ok ["src/index.ts"].
Proof.
  intros PO PE w. repeat (split; [reflexivity|]).
  rewrite <- (proj2 (proj2 (@collectors_agree Example.literalEngine PO PE
                              eq_refl eq_refl eq_refl)) w).
  reflexivity.
Defined.

(* ================================================================== *)
(** * The generation client *)
(* ================================================================== *)

Lemma posts_app (l1 l2 : list IOEvent) : posts (l1 ++ l2) = posts l1 ++ posts l2.
Proof.
  induction l1 as [|ev l1 IH]; simpl; [reflexivity|].
  destruct ev; simpl; now rewrite IH.
Qed.

(** Case analysis on every truthiness test and property read in sight. *)
Ltac validate_cases :=
  repeat match goal with
  | |- context [prop ?r ?k] => destruct (prop r k); simpl in *
  | H : context [prop ?r ?k] |- _ => destruct (prop r k); simpl in *
  | |- context [truthy ?x] => destruct (truthy x); simpl in *
  | H : context [truthy ?x] |- _ => destruct (truthy x); simpl in *
  end.

Lemma validateResponse_invalid (response : JSON) :
  invalidBody response = true ->
  exists e, forall w, Enhanced.validateResponse response w = (Throw e, w).
Proof.
  unfold invalidBody, Enhanced.validateResponse, Enhanced.throwIf,
    Enhanced.throwIfField, bind, throw, ret, truthyProp.
  intros H. validate_cases; try discriminate; eexists; intros w; reflexivity.
Qed.

Lemma validateResponse_valid (response : JSON) (w : World) :
  invalidBody response = false ->
  Enhanced.validateResponse response w = (Ok response, w).
Proof.
  unfold invalidBody, Enhanced.validateResponse, Enhanced.throwIf,
    Enhanced.throwIfField, bind, throw, ret, truthyProp.
  intros H. validate_cases; try discriminate; reflexivity.
Qed.

Lemma old_validateResponse_same (response : JSON) :
  Old.validateResponse response = Enhanced.validateResponse response.
Proof. reflexivity. Qed.

Section GenerationFacts.
Variable P : Program.
Variables (host : string) (token : option string) (body : JSON).

Let req := Enhanced.generateRequest P host token body.

(** One attempt: the request is sent, then the body is validated. *)
Lemma generateOnce_resolved (w : World) (response : JSON) :
  net_post (oracle w) (io w) req = Resolve response ->
  if invalidBody response
  then exists e, Enhanced.generateOnce P host token body w
                 = (Throw e, record (IoPost req) w)
  else Enhanced.generateOnce P host token body w
       = (Ok response, record (IoPost req) w).
Proof.
  intros Hnet. unfold Enhanced.generateOnce, bind, Utils.post. fold req.
  rewrite Hnet.
  destruct (invalidBody response) eqn:Hinv.
  - destruct (validateResponse_invalid response Hinv) as [e He].
    exists e. apply He.
  - now apply validateResponse_valid.
Qed.

Lemma generateOnce_world (w : World) :
  snd (Enhanced.generateOnce P host token body w) = record (IoPost req) w.
Proof.
  unfold Enhanced.generateOnce, bind, Utils.post. fold req.
  destruct (net_post (oracle w) (io w) req) as [response|msg]; [|reflexivity].
  destruct (invalidBody response) eqn:Hinv.
  - destruct (validateResponse_invalid response Hinv) as [e He]. now rewrite He.
  - now rewrite validateResponse_valid.
Qed.

Lemma generateOnce_ok (w w' : World) (response : JSON) :
  Enhanced.generateOnce P host token body w = (Ok response, w') ->
  invalidBody response = false.
Proof.
  unfold Enhanced.generateOnce, bind, Utils.post. fold req.
  destruct (net_post (oracle w) (io w) req) as [r|msg]; [|discriminate].
  destruct (invalidBody r) eqn:Hinv.
  - destruct (validateResponse_invalid r Hinv) as [e He]. rewrite He. discriminate.
  - rewrite validateResponse_valid by assumption. now intros [= <- _].
Qed.

Lemma generateOnce_timerOblivious :
  timerOblivious (Enhanced.generateOnce P host token body).
Proof.
  intros ms w. unfold Enhanced.generateOnce, bind, Utils.post. simpl.
  destruct (net_post (oracle w) (io w) _) as [r|msg]; [|reflexivity].
  destruct (invalidBody r) eqn:Hinv.
  - destruct (validateResponse_invalid r Hinv) as [e He]. now rewrite !He.
  - now rewrite !validateResponse_valid.
Qed.

Lemma generateOnce_sends :
  onlySends req (Enhanced.generateOnce P host token body).
Proof.
  intros w. exists 1%nat. rewrite generateOnce_world. simpl.
  now rewrite posts_app.
Qed.

End GenerationFacts.

Section RetryTraces.
Variable P : Program.
Context {T : Type}.
Variable operation : M T.
Variable maxRetries : Z.
Variable useExponentialBackoff : bool.

(** A success of the executor is a success of one of the attempts. *)
Lemma withRetryLoop_ok : forall fuel attempt lastError w v w',
  Enhanced.withRetryLoop P operation maxRetries useExponentialBackoff
    fuel attempt lastError w = (Ok v, w') ->
  exists w0 w1, operation w0 = (Ok v, w1).
Proof.
  induction fuel as [|fuel IH]; intros attempt lastError w v w' Hrun.
  - simpl in Hrun. destruct lastError; discriminate.
  - simpl in Hrun. destruct (attempt <=? maxRetries).
    + unfold tryCatch in Hrun.
      destruct (operation w) as [[v0|e] w1] eqn:Hop.
      * injection Hrun as <- _. eauto.
      * destruct (hasMessage e); [|discriminate]. cbn [negb] in Hrun.
        unfold bind in Hrun.
        destruct (attempt <? maxRetries); simpl in Hrun; eapply IH; exact Hrun.
    + destruct lastError; discriminate.
Qed.

(** The executor sends nothing but what the operation sends. *)
Lemma withRetryLoop_sends (req : Request) :
  onlySends req operation ->
  forall fuel attempt lastError,
    onlySends req
      (Enhanced.withRetryLoop P operation maxRetries useExponentialBackoff
         fuel attempt lastError).
Proof.
  intros Hop. induction fuel as [|fuel IH]; intros attempt lastError w.
  - exists 0%nat. simpl. destruct lastError; simpl; now rewrite app_nil_r.
  - simpl. destruct (attempt <=? maxRetries).
    + unfold tryCatch. destruct (Hop w) as [n1 Hn1].
      destruct (operation w) as [[v|e] w1]; simpl in Hn1; [now exists n1|].
      destruct (hasMessage e); [|now exists n1]. cbn [negb].
      unfold bind.
      destruct (attempt <? maxRetries); simpl;
        match goal with
        | |- context [Enhanced.withRetryLoop _ _ _ _ _ ?a ?le ?w2] =>
            destruct (IH a le w2) as [n2 Hn2]
        end;
        exists (n1 + n2)%nat; rewrite Hn2; simpl; rewrite Hn1;
        now rewrite repeat_app, app_assoc.
    + exists 0%nat. destruct lastError; simpl; now rewrite app_nil_r.
Qed.

End RetryTraces.

Lemma sentBy_onlySends {A} (req : Request) (m : M A) (w : World) :
  onlySends req m -> exists n, sentBy m w = repeat req n.
Proof.
  intros Hm. destruct (Hm w) as [n Hn]. exists n. unfold sentBy.
  rewrite Hn, skipn_app, skipn_all, Nat.sub_diag. reflexivity.
Qed.


Lemma sentBy_throw {A} (e : Error) (w : World) : sentBy (@throw A e) w = [].
Proof. unfold sentBy, throw. simpl. apply skipn_all. Qed.

(** C9.  For [L >= 50], [truncatePrompt p L] is at most [L] characters long,
    and it is [p] itself when [p] has at most [L] characters.  So every
    request [aiGenerate] sends carries a prompt of at most
    [config.maxPromptLength] characters, which is 8000 in the enhanced
    pipeline, whatever the length of the collected diff. *)
Theorem truncatePrompt_spec (p : string) (L : Z) :
  50 <= L ->
  JS.len (Enhanced.truncatePrompt p L) <= L /\
  (JS.len p <= L -> Enhanced.truncatePrompt p L = p) /\
  (forall P host token prompt model system w,
     maxPromptLength (config P) = L ->
     Forall (fun r => exists text,
                 prop (req_body r) "prompt" = Some (JStr text) /\
                 JS.len text <= L)
       (sentBy (Enhanced.aiGenerate P host token prompt model system) w)) /\
  (forall I E pr, maxPromptLength (Enhanced.defaultConfig I E pr) = 8000).
Proof.
  intros HL. split; [now apply truncatePrompt_length|].
  split; [apply truncatePrompt_short|]. split; [|reflexivity].
  intros P host token prompt model system w HP.
  unfold Enhanced.aiGenerate.
  destruct prompt as [text|]; [|rewrite sentBy_throw; constructor].
  destruct (negb (JS.nonempty (JS.trim text))); [rewrite sentBy_throw; constructor|].
  set (body := Enhanced.requestData P _ model system).
  destruct (sentBy_onlySends (Enhanced.generateRequest P host token body)
              (Enhanced.withRetry P (Enhanced.generateOnce P host token body)
                 "AI generation" 2 true) w) as [n Hn].
  { apply withRetryLoop_sends, generateOnce_sends. }
  rewrite Hn. apply Forall_forall. intros r Hr.
  apply repeat_spec in Hr. subst r.
  eexists. split; [reflexivity|].
  rewrite HP. now apply truncatePrompt_length.
Qed.

(** A collected diff of 10032 characters: the two requests of the two
    attempts carry a prompt of at most 8000 characters. *)
Lemma truncatePrompt_spec_witness :
  let w := Example.start (Example.scripted [] Example.noCommands) in
  let sent := sentBy (Enhanced.aiGenerate Example.enhanced "http://localhost:11434"
                        None (Some (Enhanced.limitDiff Example.longDiff))
                        "codellama" None) w in
  50 <= 8000 /\
  8000 < JS.len (Enhanced.limitDiff Example.longDiff) /\
  List.length sent = 2%nat /\
  Forall (fun r => exists text,
              prop (req_body r) "prompt" = Some (JStr text) /\
              JS.len text <= 8000) sent.
Proof.
  intros w sent. split; [lia|]. split; [vm_compute; reflexivity|].
  split; [vm_compute; reflexivity|].
  apply (proj1 (proj2 (proj2 (truncatePrompt_spec "" 8000 ltac:(lia))))).
  reflexivity.
Defined.

Lemma validateResponse_errors (response : JSON) (w w' : World) (e : Error) :
  Enhanced.validateResponse response w = (Throw e, w') -> hasMessage e = true.
Proof.
  unfold Enhanced.validateResponse, Enhanced.throwIf,
    Enhanced.throwIfField, bind, throw, ret, truthyProp.
  intros H. validate_cases; try discriminate; injection H as <- _; reflexivity.
Qed.

(** The operation of the generation client rejects with [Error] objects:
    the rejections of [post] and the four errors of the validation. *)
Lemma generateOnce_rejectsWithErrors (P : Program) (host : string)
    (token : option string) (body : JSON) :
  rejectsWithErrors (Enhanced.generateOnce P host token body).
Proof.
  intros w e w' Hrun. unfold Enhanced.generateOnce, bind, Utils.post in Hrun.
  destruct (net_post (oracle w) (io w) _) as [r|msg].
  - eapply validateResponse_errors; exact Hrun.
  - now injection Hrun as <- _.
Qed.

Section OldGenerationFacts.
Variables (host : string) (token : option string) (body : JSON).

Let req := Old.generateRequest host token body.

Lemma old_generateOnce_resolved (w : World) (response : JSON) :
  net_post (oracle w) (io w) req = Resolve response ->
  if invalidBody response
  then exists e, Old.generateOnce host token body w
                 = (Throw e, record (IoPost req) w)
  else Old.generateOnce host token body w
       = (Ok response, record (IoPost req) w).
Proof.
  intros Hnet. unfold Old.generateOnce, bind, Utils.post. fold req.
  rewrite Hnet, old_validateResponse_same.
  destruct (invalidBody response) eqn:Hinv.
  - destruct (validateResponse_invalid response Hinv) as [e He].
    exists e. apply He.
  - now apply validateResponse_valid.
Qed.

Lemma old_generateOnce_ok (w w' : World) (response : JSON) :
  Old.generateOnce host token body w = (Ok response, w') ->
  invalidBody response = false.
Proof.
  unfold Old.generateOnce, bind, Utils.post. fold req.
  destruct (net_post (oracle w) (io w) req) as [r|msg]; [|discriminate].
  rewrite old_validateResponse_same.
  destruct (invalidBody r) eqn:Hinv.
  - destruct (validateResponse_invalid r Hinv) as [e He]. rewrite He. discriminate.
  - rewrite validateResponse_valid by assumption. now intros [= <- _].
Qed.

Lemma old_generateOnce_timerOblivious :
  timerOblivious (Old.generateOnce host token body).
Proof.
  intros ms w. unfold Old.generateOnce, bind, Utils.post. simpl.
  destruct (net_post (oracle w) (io w) _) as [r|msg]; [|reflexivity].
  rewrite !old_validateResponse_same.
  destruct (invalidBody r) eqn:Hinv.
  - destruct (validateResponse_invalid r Hinv) as [e He]. now rewrite !He.
  - now rewrite !validateResponse_valid.
Qed.

Lemma old_generateOnce_rejectsWithErrors :
  rejectsWithErrors (Old.generateOnce host token body).
Proof.
  intros w e w' Hrun. unfold Old.generateOnce, bind, Utils.post in Hrun.
  destruct (net_post (oracle w) (io w) _) as [r|msg].
  - rewrite old_validateResponse_same in Hrun.
    eapply validateResponse_errors; exact Hrun.
  - now injection Hrun as <- _.
Qed.

End OldGenerationFacts.

(** Two attempts of an operation that rejects with [Error] objects and
    leaves the timers alone, the first of them a failure: the executor
    limited to two attempts passes on the outcome of the second, after one
    delay. *)
Lemma withRetry_second_attempt {T} (P : Program) (operation : M T)
    (useExponentialBackoff : bool) (w w1 w2 : World) (e1 : Error)
    (r : Result T) :
  timerOblivious operation ->
  rejectsWithErrors operation ->
  operation w = (Throw e1, w1) ->
  operation w1 = (r, w2) ->
  Enhanced.withRetryLoop P operation 2 useExponentialBackoff 2 1 None w
    = (r, afterWaits [Enhanced.retryWait P useExponentialBackoff 1] w2).
Proof.
  intros Htimer Herr H1 H2.
  apply (withRetryLoop_run P operation 2 useExponentialBackoff Htimer [e1] r).
  - cbn [List.length]. rewrite attempts_S, H1. cbn [fst snd].
    rewrite attempts_S, H2. reflexivity.
  - simpl. lia.
  - simpl. lia.
  - right. reflexivity.
  - cbn [map app forallb readable]. rewrite (Herr _ _ _ H1). cbn [andb].
    rewrite andb_true_r.
    destruct r as [v|e2]; [reflexivity | exact (Herr _ _ _ H2)].
Qed.

(** Every body the checks refuse is a failure in the words of the
    specification; the converse fails. *)
Lemma invalidBody_refusedAsWorded (body : JSON) :
  invalidBody body = true -> refusedAsWorded body = true.
Proof.
  unfold invalidBody, refusedAsWorded, carriesField, hasText, truthyProp.
  destruct body as [| b | q | s | items | fields]; try reflexivity.
  simpl. destruct (assoc "error" fields) as [err|]; [reflexivity|].
  destruct (assoc "detail" fields) as [det|]; [reflexivity|].
  destruct (assoc "response" fields) as [[| b | q | text | items | fs]|];
    simpl; try reflexivity.
  now intros ->.
Qed.

(** C7, as the code has it.  [aiGenerate] throws at once, leaving the
    world as it is (no request, no delay, no attempt), when the prompt is
    absent or empty after trimming.  Otherwise it is the retry executor,
    limited to two attempts, around one operation that posts the request
    and validates the body.  The validation tests truthiness: a body that
    is falsy, or whose [error] or [detail] is truthy, or whose [response]
    is missing or falsy makes the attempt fail inside the executor, so the
    request is sent again after one delay; a second such body makes
    [aiGenerate] fail; any other body is returned whole.  Whatever
    [aiGenerate] returns passes these tests.  The older [aiGenerate] does
    the same with its own request and the fixed delay.  Every body the
    tests refuse is a failure in the words of the specification. *)
Theorem aiGenerate_validation (P : Program) (host : string)
    (token prompt : option string) (model : string) (system : option string)
    (w : World) :
  (prompt = None \/
   (exists p, prompt = Some p /\ JS.nonempty (JS.trim p) = false) ->
   Enhanced.aiGenerate P host token prompt model system w
     = (Throw EmptyPrompt, w) /\
   Old.aiGenerate P host token prompt model system w
     = (Throw EmptyPrompt, w)) /\
  (forall p,
     prompt = Some p -> JS.nonempty (JS.trim p) = true ->
     let body :=
       Enhanced.requestData P
         (Enhanced.truncatePrompt (JS.trim p) (maxPromptLength (config P)))
         model system in
     let req := Enhanced.generateRequest P host token body in
     Enhanced.aiGenerate P host token prompt model system w
       = Enhanced.withRetry P (Enhanced.generateOnce P host token body)
           "AI generation" 2 true w /\
     (forall w0 response,
        net_post (oracle w0) (io w0) req = Resolve response ->
        if invalidBody response
        then exists e, Enhanced.generateOnce P host token body w0
                       = (Throw e, record (IoPost req) w0)
        else Enhanced.generateOnce P host token body w0
             = (Ok response, record (IoPost req) w0)) /\
     (forall first second,
        net_post (oracle w) (io w) req = Resolve first ->
        invalidBody first = true ->
        net_post (oracle w) (io w ++ [IoPost req]) req = Resolve second ->
        let w2 := afterWaits [Enhanced.retryWait P true 1]
                    (record (IoPost req) (record (IoPost req) w)) in
        if invalidBody second
        then exists e, Enhanced.aiGenerate P host token prompt model system w
                       = (Throw e, w2)
        else Enhanced.aiGenerate P host token prompt model system w
             = (Ok second, w2))) /\
  (forall response w',
     Enhanced.aiGenerate P host token prompt model system w = (Ok response, w') ->
     invalidBody response = false) /\
  (forall p,
     prompt = Some p -> JS.nonempty (JS.trim p) = true ->
     let body := Old.requestData P p model system in
     let req := Old.generateRequest host token body in
     Old.aiGenerate P host token prompt model system w
       = Old.withRetry P (Old.generateOnce host token body)
           "AI generation" 2 w /\
     (forall w0 response,
        net_post (oracle w0) (io w0) req = Resolve response ->
        if invalidBody response
        then exists e, Old.generateOnce host token body w0
                       = (Throw e, record (IoPost req) w0)
        else Old.generateOnce host token body w0
             = (Ok response, record (IoPost req) w0)) /\
     (forall first second,
        net_post (oracle w) (io w) req = Resolve first ->
        invalidBody first = true ->
        net_post (oracle w) (io w ++ [IoPost req]) req = Resolve second ->
        let w2 := afterWaits [retryDelay (config P)]
                    (record (IoPost req) (record (IoPost req) w)) in
        if invalidBody second
        then exists e, Old.aiGenerate P host token prompt model system w
                       = (Throw e, w2)
        else Old.aiGenerate P host token prompt model system w
             = (Ok second, w2))) /\
  (forall response w',
     Old.aiGenerate P host token prompt model system w = (Ok response, w') ->
     invalidBody response = false) /\
  (forall response, Old.validateResponse response
                    = Enhanced.validateResponse response) /\
  (forall body, invalidBody body = true -> refusedAsWorded body = true).
Proof.
  split; [|split; [|split; [|split; [|split; [|split]]]]].
  - intros [-> | (p & -> & Hp)]; [split; reflexivity|].
    unfold Enhanced.aiGenerate, Old.aiGenerate. rewrite Hp. split; reflexivity.
  - intros p -> Hp body req.
    assert (Hrun : Enhanced.aiGenerate P host token (Some p) model system w
                   = Enhanced.withRetry P (Enhanced.generateOnce P host token body)
                       "AI generation" 2 true w).
    { unfold Enhanced.aiGenerate. now rewrite Hp. }
    split; [exact Hrun|]. split.
    + intros w0 response. apply generateOnce_resolved.
    + intros first second H1 Hbad H2 w2. subst w2. rewrite Hrun.
      pose proof (generateOnce_resolved P host token body w first H1) as A1.
      rewrite Hbad in A1. destruct A1 as [e1 A1].
      pose proof (generateOnce_resolved P host token body
                    (record (IoPost req) w) second H2) as A2.
      unfold Enhanced.withRetry. change (Z.to_nat 2) with 2%nat.
      destruct (invalidBody second).
      * destruct A2 as [e2 A2]. exists e2.
        exact (withRetry_second_attempt P _ true _ _ _ _ _
                 (generateOnce_timerOblivious P host token body)
                 (generateOnce_rejectsWithErrors P host token body) A1 A2).
      * exact (withRetry_second_attempt P _ true _ _ _ _ _
                 (generateOnce_timerOblivious P host token body)
                 (generateOnce_rejectsWithErrors P host token body) A1 A2).
  - intros response w' Hrun. unfold Enhanced.aiGenerate in Hrun.
    destruct prompt as [p|]; [|discriminate].
    destruct (negb (JS.nonempty (JS.trim p))); [discriminate|].
    apply withRetryLoop_ok in Hrun. destruct Hrun as (w0 & w1 & Hop).
    eapply generateOnce_ok; exact Hop.
  - intros p -> Hp body req.
    assert (Hrun : Old.aiGenerate P host token (Some p) model system w
                   = Old.withRetry P (Old.generateOnce host token body)
                       "AI generation" 2 w).
    { unfold Old.aiGenerate. now rewrite Hp. }
    split; [exact Hrun|]. split.
    + intros w0 response. apply old_generateOnce_resolved.
    + intros first second H1 Hbad H2 w2. subst w2. rewrite Hrun.
      pose proof (old_generateOnce_resolved host token body w first H1) as A1.
      rewrite Hbad in A1. destruct A1 as [e1 A1].
      pose proof (old_generateOnce_resolved host token body
                    (record (IoPost req) w) second H2) as A2.
      unfold Old.withRetry. rewrite old_withRetryLoop_fixed.
      change (Z.to_nat 2) with 2%nat.
      destruct (invalidBody second).
      * destruct A2 as [e2 A2]. exists e2.
        exact (withRetry_second_attempt P _ false _ _ _ _ _
                 (old_generateOnce_timerOblivious host token body)
                 (old_generateOnce_rejectsWithErrors host token body) A1 A2).
      * exact (withRetry_second_attempt P _ false _ _ _ _ _
                 (old_generateOnce_timerOblivious host token body)
                 (old_generateOnce_rejectsWithErrors host token body) A1 A2).
  - intros response w' Hrun. unfold Old.aiGenerate in Hrun.
    destruct prompt as [p|]; [|discriminate].
    destruct (negb (JS.nonempty (JS.trim p))); [discriminate|].
    unfold Old.withRetry in Hrun. rewrite old_withRetryLoop_fixed in Hrun.
    apply withRetryLoop_ok in Hrun. destruct Hrun as (w0 & w1 & Hop).
    eapply old_generateOnce_ok; exact Hop.
  - reflexivity.
  - apply invalidBody_refusedAsWorded.
Qed.

(** A blank prompt is rejected without any request; a body with an error,
    then a body with a review: the second attempt returns the review after
    one delay of 5000. *)
Lemma aiGenerate_validation_witness :
  let w := Example.start
             (Example.scripted [Resolve Example.modelNotFound; Resolve Example.reviewed]
                Example.noCommands) in
  JS.nonempty (JS.trim "   ") = false /\
  Enhanced.aiGenerate Example.enhanced "http://localhost:11434" None (Some "   ")
    "codellama" None w = (Throw EmptyPrompt, w) /\
  JS.nonempty (JS.trim "+const a = 1;") = true /\
  invalidBody Example.modelNotFound = true /\
  fst (Enhanced.aiGenerate Example.enhanced "http://localhost:11434" None
         (Some "+const a = 1;") "codellama" None w) = Ok Example.reviewed /\
  waits (snd (Enhanced.aiGenerate Example.enhanced "http://localhost:11434" None
                (Some "+const a = 1;") "codellama" None w)) = [5000].
Proof.
  intros w. split; [reflexivity|]. split.
  - apply (proj1 (aiGenerate_validation Example.enhanced "http://localhost:11434"
                    None (Some "   ") "codellama" None w)).
    right. exists "   ". split; reflexivity.
  - split; [reflexivity|]. split; [reflexivity|].
    pose proof (proj2 (proj2 (proj1 (proj2
                  (aiGenerate_validation Example.enhanced "http://localhost:11434"
                     None (Some "+const a = 1;") "codellama" None w))
                  "+const a = 1;" eq_refl eq_refl))
                  Example.modelNotFound Example.reviewed eq_refl eq_refl eq_refl)
      as Hrun.
    cbv zeta in Hrun.
    change (invalidBody Example.reviewed) with false in Hrun.
    cbv iota in Hrun. rewrite Hrun. split; reflexivity.
Defined.

(** The claim as worded fails on two bodies.  The first carries an
    explicit [error] field, the empty string; the second has a [response]
    that is a number, so it lacks a non-empty text.  Both are failures in
    the words of the specification, and [aiGenerate] returns each of them
    as the result of the first attempt, in both pipelines: one request, no
    retry. *)
Lemma aiGenerate_validation_counterexample :
  let emptyError := JObj [("error", JStr EmptyString); ("response", JStr "LGTM")] in
  let numberText := JObj [("response", JNum (5 # 1))] in
  let serving (body : JSON) :=
    Example.start (Example.scripted [Resolve body] Example.noCommands) in
  let generate (body : JSON) :=
    Enhanced.aiGenerate Example.enhanced "http://localhost:11434" None
      (Some "+const a = 1;") "codellama" None (serving body) in
  let generateOld (body : JSON) :=
    Old.aiGenerate Example.enhanced "http://localhost:11434" None
      (Some "+const a = 1;") "codellama" None (serving body) in
  carriesField emptyError "error" = true /\
  hasText numberText = false /\
  refusedAsWorded emptyError = true /\
  refusedAsWorded numberText = true /\
  fst (generate emptyError) = Ok emptyError /\
  fst (generate numberText) = Ok numberText /\
  fst (generateOld emptyError) = Ok emptyError /\
  fst (generateOld numberText) = Ok numberText /\
  List.length (posts (io (snd (generate emptyError)))) = 1%nat /\
  List.length (posts (io (snd (generate numberText)))) = 1%nat /\
  waits (snd (generate emptyError)) = [] /\
  waits (snd (generate numberText)) = [] /\
  ~ (forall body, refusedAsWorded body = true -> isOk (fst (generate body)) = false).
Proof.
  intros emptyError numberText serving generate generateOld.
  repeat (split; [reflexivity|]).
  intros H. specialize (H emptyError eq_refl). discriminate H.
Qed.

(* ================================================================== *)
(** * The comment publisher *)
(* ================================================================== *)

(** C8.  For every comment body: when no pull request number is set,
    [pushComments] returns [{id: "local-log", success: true}] and leaves
    the world as it is (no request is sent); when a number is set but the
    repository or the token is missing, it throws the configuration error
    and leaves the world as it is (no request, no retry).  Both pipelines
    do so. *)
Theorem pushComments_configuration (P : Program) (message : string) (w : World) :
  (JS.truthyStr (INPUT_PULL_REQUEST_NUMBER (env P)) = false ->
   Enhanced.pushComments P message w
     = (Ok (JObj [("id", JStr "local-log"); ("success", JBool true)]), w) /\
   Old.pushComments P message w
     = (Ok (JObj [("id", JStr "local-log"); ("success", JBool true)]), w)) /\
  (JS.truthyStr (INPUT_PULL_REQUEST_NUMBER (env P)) = true ->
   JS.truthyStr (INPUT_REPOSITORY (env P)) = false \/
   JS.truthyStr (INPUT_TOKEN (env P)) = false ->
   Enhanced.pushComments P message w = (Throw MissingEnvironment, w) /\
   Old.pushComments P message w = (Throw MissingEnvironment, w)).
Proof.
  unfold Enhanced.pushComments, Old.pushComments. split.
  - intros ->. split; reflexivity.
  - intros -> [-> | ->]; simpl; rewrite ?orb_true_r; split; reflexivity.
Qed.

(** Nothing set: the comment is logged.  A number without repository and
    token: the configuration error. *)
Lemma pushComments_configuration_witness :
  let w := Example.start (Example.scripted [] Example.noCommands) in
  JS.truthyStr (INPUT_PULL_REQUEST_NUMBER Example.noEnv) = false /\
  Enhanced.pushComments Example.enhanced "# review" w
    = (Ok (JObj [("id", JStr "local-log"); ("success", JBool true)]), w) /\
  JS.truthyStr (INPUT_PULL_REQUEST_NUMBER Example.numberOnly) = true /\
  JS.truthyStr (INPUT_REPOSITORY Example.numberOnly) = false /\
  Enhanced.pushComments
    (Example.program (Enhanced.defaultConfig [] [] false) Example.numberOnly)
    "# review" w = (Throw MissingEnvironment, w).
Proof.
  intros w. split; [reflexivity|]. split.
  - apply (proj1 (pushComments_configuration Example.enhanced "# review" w)).
    reflexivity.
  - split; [reflexivity|]. split; [reflexivity|].
    apply (proj2 (pushComments_configuration
                    (Example.program (Enhanced.defaultConfig [] [] false)
                       Example.numberOnly) "# review" w));
      [reflexivity | now left].
Defined.

(* ================================================================== *)
(** * The review loop and the outcome of a run *)
(* ================================================================== *)

Lemma reviewLoop_tally (P : Program) :
  forall items i c0 w,
    let c := fst (Enhanced.reviewLoop P i items c0 w) in
    let results := itemResults P i items w in
    List.length results = List.length items /\
    successCount c = (successCount c0 + countOk results)%nat /\
    errorCount c = (errorCount c0 + countFailed results)%nat /\
    failedFiles c = failedFiles c0 ++ failedPaths items results.
Proof.
  unfold countOk, countFailed.
  induction items as [|item rest IH]; intros i c0 w; cbn zeta.
  - simpl. rewrite app_nil_r. repeat split; lia.
  - cbn [Enhanced.reviewLoop itemResults].
    destruct (Enhanced.reviewItem P i item w) as [[u|e] w1].
    + destruct (IH (S i)
                  (mkCounters (S (successCount c0)) (errorCount c0) (failedFiles c0))
                  w1) as (Hlen & Hs & He & Hf).
      cbn [successCount errorCount failedFiles] in *.
      cbn [filter isOk negb List.length failedPaths].
      rewrite Hlen, Hs, He, Hf. repeat split; lia.
    + destruct (IH (S i)
                  (mkCounters (successCount c0) (S (errorCount c0))
                     (failedFiles c0 ++ [path item]))
                  w1) as (Hlen & Hs & He & Hf).
      cbn [successCount errorCount failedFiles] in *.
      cbn [filter isOk negb List.length failedPaths].
      rewrite Hlen, Hs, He, Hf, <- app_assoc. repeat split; lia.
Qed.

Lemma failedPaths_length (items : list DiffItem) :
  forall results,
    List.length results = List.length items ->
    List.length (failedPaths items results) = countFailed results.
Proof.
  unfold countFailed.
  induction items as [|item rest IH]; intros [|r results] Hlen;
    simpl in *; try reflexivity; try discriminate.
  destruct (isOk r); simpl; rewrite IH; auto.
Qed.

Lemma count_partition (results : list (Result unit)) :
  (countOk results + countFailed results = List.length results)%nat.
Proof.
  unfold countOk, countFailed.
  induction results as [|r results IH]; simpl; [reflexivity|].
  destruct (isOk r); simpl; lia.
Qed.

Lemma old_reviewLoop_tally (P : Program) :
  forall items c0 w,
    let c := fst (Old.reviewLoop P items c0 w) in
    (successCount c + errorCount c =
     successCount c0 + errorCount c0 + List.length items)%nat.
Proof.
  induction items as [|item rest IH]; intros c0 w; cbn zeta.
  - simpl. lia.
  - cbn [Old.reviewLoop].
    destruct (Old.reviewItem P item w) as [[u|e] w1];
      rewrite IH; simpl; lia.
Qed.

(** C1.  For a run whose collector returned [items]: every item is a diff
    item that passed the inclusion policy, and the total is their number.
    After the review loop has gone through all of them,
    [successCount + errorCount] is that total.  Each item raises exactly
    one of the two counters: [successCount] counts the items whose [try]
    block completed and [errorCount] those where it threw, at whatever
    stage.  [failedFiles] holds the paths of the failed items, in order,
    one entry for each of them.  The two counters of the older loop add up
    to the total in the same way. *)
Theorem review_counters {engine : RegExpEngine} (P : Program)
    (w1 w2 : World) (items : list DiffItem) :
  collector P w1 = (Ok items, w2) ->
  let c := fst (Enhanced.reviewLoop P 0 items Enhanced.noCounts w2) in
  let results := itemResults P 0 items w2 in
  let totalCount := List.length items in
  (successCount c + errorCount c)%nat = totalCount /\
  Forall (fun it => Enhanced.inScope P (path it) = true) items /\
  List.length results = totalCount /\
  successCount c = countOk results /\
  errorCount c = countFailed results /\
  failedFiles c = failedPaths items results /\
  List.length (failedFiles c) = errorCount c /\
  (forall itemsO wO,
     let cO := fst (Old.reviewLoop P itemsO Old.noCounts wO) in
     (successCount cO + errorCount cO)%nat = List.length itemsO).
Proof.
  intros Hcollect c results totalCount.
  destruct (reviewLoop_tally P items 0 Enhanced.noCounts w2)
    as (Hlen & Hs & He & Hf).
  fold c in Hs, He, Hf. fold results in Hlen, Hs, He, Hf.
  cbn [Enhanced.noCounts successCount errorCount failedFiles] in Hs, He, Hf.
  rewrite app_nil_l in Hf.
  pose proof (count_partition results) as Hpart.
  pose proof (failedPaths_length items results Hlen) as Hfl.
  subst totalCount.
  split; [lia|]. split.
  { eapply Forall_impl;
      [| apply (collector_items P w1 w2 items); unfold collector in Hcollect;
         destruct (reviewPullRequest (config P)); auto].
    now intros it [Hin _]. }
  split; [exact Hlen|]. split; [lia|]. split; [lia|]. split; [exact Hf|].
  split; [rewrite Hf, Hfl; lia|].
  intros itemsO wO cO. subst cO.
  rewrite (old_reviewLoop_tally P itemsO Old.noCounts wO). reflexivity.
Qed.

(** The sample commit: generation fails twice for the first file and
    succeeds for the second. *)
Lemma review_counters_witness :
  let P := Example.enhanced in
  let w1 := Example.twoFiles
              [Resolve Example.modelNotFound; Resolve Example.modelNotFound;
               Resolve Example.reviewed] in
  let out := @collector Example.literalEngine P w1 in
  let items := [mkDiffItem "src/index.ts" "+const a = 1;";
                mkDiffItem "src/utils.test.ts" "+test();"] in
  let c := fst (Enhanced.reviewLoop P 0 items Enhanced.noCounts (snd out)) in
  out = (Ok items, snd out) /\
  (successCount c + errorCount c)%nat = 2%nat /\
  successCount c = 1%nat /\
  failedFiles c = ["src/index.ts"].
Proof.
  intros P w1 out items c.
  assert (Hout : out = (Ok items, snd out)) by (vm_compute; reflexivity).
  split; [exact Hout|].
  destruct (@review_counters Example.literalEngine P w1 (snd out) items Hout)
    as (Hsum & _ & _ & Hs & _ & Hf & _).
  split; [exact Hsum|].
  split; [etransitivity; [exact Hs|] | etransitivity; [exact Hf|]];
    vm_compute; reflexivity.
Defined.

Lemma aiCheckDiffContextBody_run {engine : RegExpEngine} (P : Program)
    (w w1 w2 : World) (items : list DiffItem) :
  Enhanced.testOllamaConnection P w = (Ok tt, w1) ->
  collector P w1 = (Ok items, w2) ->
  Enhanced.aiCheckDiffContextBody P w =
  if (List.length items =? 0)%nat then (Ok tt, w2)
  else Enhanced.classify (List.length items)
         (fst (Enhanced.reviewLoop P 0 items Enhanced.noCounts w2))
         (snd (Enhanced.reviewLoop P 0 items Enhanced.noCounts w2)).
Proof.
  intros Htest Hcollect.
  unfold Enhanced.aiCheckDiffContextBody, bind. rewrite Htest.
  unfold collector in Hcollect. rewrite Hcollect.
  destruct (List.length items =? 0)%nat; [reflexivity|].
  now destruct (Enhanced.reviewLoop P 0 items Enhanced.noCounts w2).
Qed.

(** C2.  A run that passed the connectivity test and whose collector
    returned [items].  With no item, [aiCheckDiffContext] returns at once:
    nothing is reviewed and the process exits with code 0.  Otherwise, with
    the counters [c] of the review loop: if [errorCount] is 0 it returns;
    if [successCount] is 0 and [errorCount] is positive, the [try] block
    throws the error for a run in which all files failed, and the process
    exits with code 1; if both are positive it returns without throwing. *)
Theorem run_classification {engine : RegExpEngine} (P : Program)
    (w w1 w2 : World) (items : list DiffItem) :
  Enhanced.testOllamaConnection P w = (Ok tt, w1) ->
  collector P w1 = (Ok items, w2) ->
  (items = [] ->
   Enhanced.aiCheckDiffContextBody P w = (Ok tt, w2) /\
   Enhanced.aiCheckDiffContext P w = (Returned, w2) /\
   Enhanced.main P w = (0, w2)) /\
  (forall c w3,
     items <> [] ->
     Enhanced.reviewLoop P 0 items Enhanced.noCounts w2 = (c, w3) ->
     (errorCount c = 0%nat ->
      Enhanced.aiCheckDiffContextBody P w = (Ok tt, w3) /\
      Enhanced.aiCheckDiffContext P w = (Returned, w3) /\
      Enhanced.main P w = (0, w3)) /\
     (successCount c = 0%nat -> (0 < errorCount c)%nat ->
      Enhanced.aiCheckDiffContextBody P w
        = (Throw (AllFailed (List.length items)), w3) /\
      Enhanced.aiCheckDiffContext P w = (ProcessExit 1, w3) /\
      Enhanced.main P w = (1, w3)) /\
     ((0 < successCount c)%nat -> (0 < errorCount c)%nat ->
      Enhanced.aiCheckDiffContextBody P w = (Ok tt, w3) /\
      Enhanced.aiCheckDiffContext P w = (Returned, w3) /\
      Enhanced.main P w = (0, w3))).
Proof.
  intros Htest Hcollect.
  pose proof (aiCheckDiffContextBody_run P w w1 w2 items Htest Hcollect) as Hbody.
  unfold Enhanced.main, Enhanced.aiCheckDiffContext.
  split.
  - intros ->. simpl in Hbody. rewrite Hbody. repeat split.
  - intros c w3 Hitems Hloop. rewrite Hloop in Hbody. cbn [fst snd] in Hbody.
    destruct items as [|item rest]; [contradiction|].
    cbn [List.length Nat.eqb] in Hbody.
    unfold Enhanced.classify, Enhanced.throwIf in Hbody.
    split; [|split].
    + intros He. rewrite He in Hbody. simpl in Hbody.
      rewrite Hbody. repeat split.
    + intros Hs He. rewrite Hs in Hbody.
      destruct (Nat.ltb_spec 0 (errorCount c)); [|lia].
      simpl in Hbody. rewrite Hbody. repeat split.
    + intros Hs He.
      destruct (Nat.eqb_spec (successCount c) 0); [lia|].
      rewrite andb_false_r in Hbody. rewrite Hbody. repeat split.
Qed.

(** The sample commit.  When the generation service refuses every
    connection, both files fail and the process exits with code 1.  When
    generation fails for the first file only, the run returns. *)
Lemma run_classification_witness :
  let P := Example.enhanced in
  let items := [mkDiffItem "src/index.ts" "+const a = 1;";
                mkDiffItem "src/utils.test.ts" "+test();"] in
  let down := Example.twoFiles [] in
  let flaky := Example.twoFiles
                 [Resolve Example.modelNotFound; Resolve Example.modelNotFound;
                  Resolve Example.reviewed] in
  fst (Enhanced.testOllamaConnection P down) = Ok tt /\
  fst (@collector Example.literalEngine P
         (snd (Enhanced.testOllamaConnection P down))) = Ok items /\
  fst (@Enhanced.main Example.literalEngine P down) = 1 /\
  fst (@Enhanced.main Example.literalEngine P flaky) = 0.
Proof.
  intros P items down flaky.
  split; [reflexivity|]. split; [vm_compute; reflexivity|].
  split.
  - set (w1 := snd (Enhanced.testOllamaConnection P down)).
    set (w2 := snd (@collector Example.literalEngine P w1)).
    set (out := Enhanced.reviewLoop P 0 items Enhanced.noCounts w2).
    destruct (proj2 (@run_classification Example.literalEngine P down w1 w2 items
                       ltac:(vm_compute; reflexivity)
                       ltac:(vm_compute; reflexivity))
                (fst out) (snd out) ltac:(discriminate)
                ltac:(vm_compute; reflexivity))
      as (_ & Hfail & _).
    destruct (Hfail ltac:(vm_compute; reflexivity) ltac:(vm_compute; lia))
      as (_ & _ & Hmain).
    now rewrite Hmain.
  - set (w1 := snd (Enhanced.testOllamaConnection P flaky)).
    set (w2 := snd (@collector Example.literalEngine P w1)).
    set (out := Enhanced.reviewLoop P 0 items Enhanced.noCounts w2).
    destruct (proj2 (@run_classification Example.literalEngine P flaky w1 w2 items
                       ltac:(vm_compute; reflexivity)
                       ltac:(vm_compute; reflexivity))
                (fst out) (snd out) ltac:(discriminate)
                ltac:(vm_compute; reflexivity))
      as (_ & _ & Hpartial).
    destruct (Hpartial ltac:(vm_compute; lia) ltac:(vm_compute; lia))
      as (_ & _ & Hmain).
    now rewrite Hmain.
Defined.

(* ================================================================== *)
(** * Facts about [trim] *)
(* ================================================================== *)

Abbreviation chars := list_ascii_of_string.

Lemma chars_inj (a b : string) : chars a = chars b -> a = b.
Proof.
  intros H. rewrite <- (string_of_list_ascii_of_string a),
    <- (string_of_list_ascii_of_string b). now rewrite H.
Qed.

Lemma chars_reverse (s : string) : chars (JS.reverse s) = rev (chars s).
Proof.
  unfold JS.reverse. rewrite list_ascii_of_string_of_list_ascii.
  symmetry. apply rev_alt.
Qed.

Lemma chars_trimStart (s : string) : chars (JS.trimStart s) = dropWs (chars s).
Proof.
  induction s as [|c s IH]; simpl; [reflexivity|].
  destruct (JS.is_whitespace c); [exact IH | reflexivity].
Qed.

Lemma chars_trim (s : string) :
  chars (JS.trim s) = rev (dropWs (rev (dropWs (chars s)))).
Proof.
  unfold JS.trim, JS.trimEnd.
  now rewrite chars_reverse, chars_trimStart, chars_reverse, chars_trimStart.
Qed.

Lemma chars_append (a b : string) : chars (a +++ b) = chars a ++ chars b.
Proof. induction a as [|c a IH]; simpl; [reflexivity | now rewrite IH]. Qed.

Lemma nonempty_chars (s : string) : JS.nonempty s = negb (isEmpty (chars s)).
Proof. now destruct s. Qed.

Lemma isEmpty_rev {A} (l : list A) : isEmpty (rev l) = isEmpty l.
Proof.
  destruct l as [|x l]; [reflexivity|]. simpl.
  now destruct (rev l).
Qed.

Lemma existsb_rev_eq {A} (f : A -> bool) (l : list A) :
  existsb f (rev l) = existsb f l.
Proof.
  induction l as [|x l IH]; simpl; [reflexivity|].
  rewrite existsb_app, IH. simpl. rewrite orb_false_r. apply orb_comm.
Qed.

Lemma dropWs_visible (l : list ascii) :
  existsb (fun c => negb (JS.is_whitespace c)) (dropWs l)
  = existsb (fun c => negb (JS.is_whitespace c)) l.
Proof.
  induction l as [|c l IH]; simpl; [reflexivity|].
  destruct (JS.is_whitespace c) eqn:Hc; simpl; [exact IH | now rewrite Hc].
Qed.

Lemma dropWs_empty (l : list ascii) :
  isEmpty (dropWs l) = negb (existsb (fun c => negb (JS.is_whitespace c)) l).
Proof.
  induction l as [|c l IH]; simpl; [reflexivity|].
  destruct (JS.is_whitespace c); simpl; [exact IH | reflexivity].
Qed.

Lemma dropWs_head (l : list ascii) (x : ascii) (m : list ascii) :
  dropWs l = x :: m -> JS.is_whitespace x = false.
Proof.
  induction l as [|c l IH]; simpl; [discriminate|].
  destruct (JS.is_whitespace c) eqn:Hc; [exact IH|].
  now intros [= <- _].
Qed.

Lemma dropWs_idempotent (l : list ascii) : dropWs (dropWs l) = dropWs l.
Proof.
  induction l as [|c l IH]; simpl; [reflexivity|].
  destruct (JS.is_whitespace c) eqn:Hc; [exact IH|]. simpl. now rewrite Hc.
Qed.

Lemma dropWs_app_visible (m : list ascii) (x : ascii) :
  JS.is_whitespace x = false -> dropWs (m ++ [x]) = dropWs m ++ [x].
Proof.
  intros Hx. induction m as [|c m IH]; simpl; [now rewrite Hx|].
  destruct (JS.is_whitespace c); [exact IH | reflexivity].
Qed.

Lemma dropEnd_cons (x : ascii) (l : list ascii) :
  JS.is_whitespace x = false ->
  rev (dropWs (rev (x :: l))) = x :: rev (dropWs (rev l)).
Proof.
  intros Hx. simpl. rewrite (dropWs_app_visible _ _ Hx).
  now rewrite rev_app_distr.
Qed.

Lemma dropWs_incl (l : list ascii) (c : ascii) : In c (dropWs l) -> In c l.
Proof.
  induction l as [|d l IH]; simpl; [tauto|].
  destruct (JS.is_whitespace d); simpl; tauto.
Qed.

(** [trim] keeps a string that it has produced. *)
Lemma trim_idempotent (s : string) : JS.trim (JS.trim s) = JS.trim s.
Proof.
  apply chars_inj. rewrite (chars_trim (JS.trim s)), (chars_trim s).
  destruct (dropWs (chars s)) as [|x m] eqn:Hm; [reflexivity|].
  pose proof (dropWs_head _ _ _ Hm) as Hx.
  rewrite (dropEnd_cons x m Hx).
  cbn [dropWs]. rewrite Hx. rewrite (dropEnd_cons x _ Hx).
  now rewrite rev_involutive, dropWs_idempotent.
Qed.

(** [trim] leaves something exactly when there is a character to keep. *)
Lemma nonempty_trim (s : string) : JS.nonempty (JS.trim s) = hasVisible s.
Proof.
  rewrite nonempty_chars, chars_trim, isEmpty_rev, dropWs_empty, negb_involutive.
  rewrite existsb_rev_eq. apply dropWs_visible.
Qed.

Lemma trim_incl (s : string) (c : ascii) :
  In c (chars (JS.trim s)) -> In c (chars s).
Proof.
  rewrite chars_trim. intros H.
  apply in_rev, dropWs_incl, in_rev, dropWs_incl in H. exact H.
Qed.

Lemma hasVisible_append (a b : string) :
  hasVisible (a +++ b) = hasVisible a || hasVisible b.
Proof. unfold hasVisible. now rewrite chars_append, existsb_app. Qed.

Lemma includesChar_In (s : string) (c : ascii) :
  Startup.includesChar s c = true <-> In c (chars s).
Proof.
  induction s as [|d s IH]; simpl; [split; [discriminate | tauto]|].
  rewrite orb_true_iff, IH, Ascii.eqb_eq. tauto.
Qed.

Lemma includesChar_false (s : string) (c : ascii) :
  Startup.includesChar s c = false <-> ~ In c (chars s).
Proof.
  rewrite <- includesChar_In. destruct (Startup.includesChar s c); split;
    intros H; try discriminate; try reflexivity. now exfalso; apply H.
Qed.

(* ================================================================== *)
(** * The pattern lists of the inputs *)
(* ================================================================== *)

Lemma split_nonempty (sep : ascii) (s : string) : JS.split sep s <> [].
Proof.
  destruct s as [|c s]; simpl; [discriminate|].
  destruct (Ascii.eqb c sep); [discriminate|].
  destruct (JS.split sep s); discriminate.
Qed.

Lemma split_pieces (sep : ascii) (s : string) :
  Forall (fun p => ~ In sep (chars p) /\ forall c, In c (chars p) -> In c (chars s))
    (JS.split sep s).
Proof.
  induction s as [|c s IH]; simpl.
  - constructor; [|constructor]. simpl. tauto.
  - destruct (Ascii.eqb_spec c sep) as [->|Hc].
    + constructor; [simpl; tauto|].
      eapply Forall_impl; [|exact IH]. simpl. intros p [H1 H2]. split; auto.
    + destruct (JS.split sep s) as [|l ls].
      * constructor; [|constructor]. simpl. split; [intros [H|[]]; auto|tauto].
      * inversion IH as [|? ? [Hl1 Hl2] Hls]; subst. constructor.
        -- simpl. split; [intros [H|H]; auto|]. intros d [H|H]; auto.
        -- eapply Forall_impl; [|exact Hls]. simpl. intros p [H1 H2]. split; auto.
Qed.

Lemma splitRuns_pieces (s : string) : forall inRun,
  Forall (fun p => (forall c, In c (chars p) -> Startup.isLineBreak c = false) /\
                   forall c, In c (chars p) -> In c (chars s))
    (Startup.splitRuns inRun s).
Proof.
  induction s as [|c s IH]; intros inRun; simpl.
  - constructor; [|constructor]. simpl. tauto.
  - assert (Hweak : forall b,
              Forall (fun p =>
                        (forall d, In d (chars p) -> Startup.isLineBreak d = false) /\
                        forall d, In d (chars p) -> c = d \/ In d (chars s))
                (Startup.splitRuns b s)).
    { intros b. eapply Forall_impl; [|exact (IH b)]. simpl.
      intros p [H1 H2]. split; auto. }
    destruct (Startup.isLineBreak c) eqn:Hc.
    + destruct inRun; [apply Hweak|].
      constructor; [simpl; tauto | apply Hweak].
    + specialize (Hweak false).
      destruct (Startup.splitRuns false s) as [|l ls].
      * constructor; [|constructor]. simpl.
        split; [intros d [<-|[]]; exact Hc | tauto].
      * inversion Hweak as [|? ? [Hl1 Hl2] Hls]; subst. constructor; [|exact Hls].
        simpl. split; [intros d [<-|H]; auto | intros d [H|H]; auto].
Qed.

Lemma isLineBreak_false (c : ascii) :
  Startup.isLineBreak c = false <->
  c <> ascii_of_nat 10 /\ c <> ascii_of_nat 13.
Proof.
  unfold Startup.isLineBreak. rewrite orb_false_iff, !Ascii.eqb_neq. tauto.
Qed.

(** X1.  Every entry [split_message] returns is not empty, is trimmed and
    holds no line break; when the trimmed input holds no line break, so
    that commas separate, no entry holds a comma either. *)
Theorem split_message_entries (files : string) :
  Forall (fun item =>
            item <> EmptyString /\
            JS.trim item = item /\
            Startup.includesChar item (ascii_of_nat 10) = false /\
            Startup.includesChar item (ascii_of_nat 13) = false /\
            (Startup.includesChar (JS.trim files) (ascii_of_nat 10) = false ->
             Startup.includesChar (JS.trim files) (ascii_of_nat 13) = false ->
             Startup.includesChar item ","%char = false))
    (Startup.split_message files).
Proof.
  unfold Startup.split_message.
  destruct (negb (JS.nonempty files)); [constructor|].
  destruct (negb (JS.nonempty (JS.trim files))); [constructor|].
  set (t := JS.trim files).
  apply Forall_forall. intros item Hin.
  apply filter_In in Hin. destruct Hin as [Hin Hlen].
  apply in_map_iff in Hin. destruct Hin as (piece & <- & Hpiece).
  split; [intros Hempty; rewrite Hempty in Hlen; discriminate|].
  split; [apply trim_idempotent|].
  destruct (Startup.includesChar t (ascii_of_nat 10)) eqn:Hlf;
    [|destruct (Startup.includesChar t (ascii_of_nat 13)) eqn:Hcr]; cbn [orb] in Hpiece.
  1,2: pose proof (splitRuns_pieces t false) as Hall;
       rewrite Forall_forall in Hall; destruct (Hall piece Hpiece) as [Hbreak _];
       repeat split; try discriminate;
       apply includesChar_false; intros Hc; apply trim_incl in Hc;
       apply Hbreak in Hc; discriminate.
  pose proof (split_pieces ","%char t) as Hall.
  rewrite Forall_forall in Hall. destruct (Hall piece Hpiece) as [Hsep Hsub].
  apply includesChar_false in Hlf, Hcr.
  repeat split.
  - apply includesChar_false. intros Hc. apply trim_incl in Hc. auto.
  - apply includesChar_false. intros Hc. apply trim_incl in Hc. auto.
  - intros _ _. apply includesChar_false. intros Hc. apply trim_incl in Hc. auto.
Qed.

Lemma split_message_blank (files : string) :
  hasVisible files = false -> Startup.split_message files = [].
Proof.
  intros H. unfold Startup.split_message.
  destruct (negb (JS.nonempty files)); [reflexivity|].
  now rewrite nonempty_trim, H.
Qed.

(** X2.  An input that is unset, empty or blank gives the empty pattern
    list; with such include and exclude inputs every file is in scope, in
    both pipelines. *)
Theorem blank_inputs_all_in_scope {engine : RegExpEngine}
    (rawInclude rawExclude : option string) :
  hasVisible (JS.orElse rawInclude "") = false ->
  hasVisible (JS.orElse rawExclude "") = false ->
  Startup.split_message (JS.orElse rawInclude "") = [] /\
  Startup.split_message (JS.orElse rawExclude "") = [] /\
  forall pr e url model prompt F,
    Enhanced.inScope
      (mkProgram (Startup.enhancedConfig rawInclude rawExclude pr)
         e url model prompt) F = true /\
    Old.inScope
      (mkProgram (Startup.oldConfig rawInclude rawExclude pr)
         e url model prompt) F = true.
Proof.
  intros HI HE.
  pose proof (split_message_blank _ HI) as HI'.
  pose proof (split_message_blank _ HE) as HE'.
  split; [exact HI'|]. split; [exact HE'|].
  intros pr e url model prompt F.
  unfold Enhanced.inScope, Enhanced.notIncluded, Enhanced.excluded,
    Old.inScope, Old.notIncluded, Old.excluded,
    Startup.enhancedConfig, Startup.oldConfig. simpl.
  rewrite HI', HE'. split; reflexivity.
Qed.

(** Unset include input, blank exclude input. *)
Lemma blank_inputs_all_in_scope_witness :
  hasVisible (JS.orElse None "") = false /\
  hasVisible (JS.orElse (Some "  ") "") = false /\
  @Enhanced.inScope Example.literalEngine
    (mkProgram (Startup.enhancedConfig None (Some "  ") false)
       Example.noEnv "http://localhost:11434" "codellama" "")
    "src/index.ts" = true.
Proof.
  split; [reflexivity|]. split; [reflexivity|].
  apply (proj2 (proj2 (@blank_inputs_all_in_scope Example.literalEngine
                         None (Some "  ") eq_refl eq_refl))).
Defined.

Lemma split_no_sep (sep : ascii) (p : string) :
  ~ In sep (chars p) -> JS.split sep p = [p].
Proof.
  induction p as [|c p IH]; simpl; [reflexivity|]. intros H.
  destruct (Ascii.eqb_spec c sep) as [->|Hc]; [exfalso; auto|].
  rewrite IH by auto. reflexivity.
Qed.

Lemma split_app (sep : ascii) (p t : string) :
  ~ In sep (chars p) ->
  JS.split sep (p +++ String sep t) = p :: JS.split sep t.
Proof.
  induction p as [|c p IH]; simpl; intros H.
  - now rewrite Ascii.eqb_refl.
  - destruct (Ascii.eqb_spec c sep) as [->|Hc]; [exfalso; auto|].
    rewrite IH by auto. reflexivity.
Qed.

Lemma join_cons (sep p q : string) (r : list string) :
  JS.join sep (p :: q :: r) = p +++ sep +++ JS.join sep (q :: r).
Proof. reflexivity. Qed.

Lemma split_join (sep : ascii) (ps : list string) :
  ps <> [] ->
  Forall (fun p => ~ In sep (chars p)) ps ->
  JS.split sep (JS.join (String sep EmptyString) ps) = ps.
Proof.
  induction ps as [|p [|q r] IH]; intros Hne Hall; [contradiction| |].
  - inversion Hall; subst. simpl. now apply split_no_sep.
  - inversion Hall as [|? ? Hp Hrest]; subst.
    rewrite join_cons. simpl (String sep EmptyString +++ _).
    rewrite split_app by exact Hp. f_equal. apply IH; [discriminate | exact Hrest].
Qed.

Lemma splitRuns_no_break (p : string) (inRun : bool) :
  (forall c, In c (chars p) -> Startup.isLineBreak c = false) ->
  Startup.splitRuns inRun p = [p].
Proof.
  revert inRun. induction p as [|c p IH]; intros inRun H; simpl; [reflexivity|].
  rewrite (H c) by (simpl; auto). rewrite IH by (intros d Hd; apply H; simpl; auto).
  reflexivity.
Qed.

Lemma splitRuns_app (p t : string) :
  (forall c, In c (chars p) -> Startup.isLineBreak c = false) ->
  Startup.splitRuns false (p +++ String (ascii_of_nat 10) t)
  = p :: Startup.splitRuns true t.
Proof.
  induction p as [|c p IH]; intros H.
  - reflexivity.
  - cbn [String.append Startup.splitRuns].
    rewrite (H c) by (simpl; auto).
    rewrite IH by (intros d Hd; apply H; simpl; auto). reflexivity.
Qed.

Lemma splitRuns_after_run (t : string) :
  startsVisible (chars t) ->
  Startup.splitRuns true t = Startup.splitRuns false t.
Proof.
  destruct t as [|c t]; simpl; [tauto|]. intros Hc.
  assert (Hb : Startup.isLineBreak c = false).
  { unfold Startup.isLineBreak.
    destruct (Ascii.eqb_spec c (ascii_of_nat 10)) as [->|]; [discriminate|].
    destruct (Ascii.eqb_spec c (ascii_of_nat 13)) as [->|]; [discriminate|].
    reflexivity. }
  now rewrite Hb.
Qed.

Lemma startsVisible_app (l t : list ascii) :
  startsVisible l -> startsVisible (l ++ t).
Proof. destruct l; simpl; tauto. Qed.

Lemma startsVisible_dropWs (l : list ascii) : startsVisible l -> dropWs l = l.
Proof. destruct l as [|x l]; simpl; [tauto|]. now intros ->. Qed.

Lemma clean_ends (p : string) :
  p <> EmptyString -> JS.trim p = p ->
  startsVisible (chars p) /\ startsVisible (rev (chars p)).
Proof.
  intros Hne Htrim. pose proof (chars_trim p) as H. rewrite Htrim in H.
  assert (Hl : chars p <> []).
  { intros E. apply Hne. apply chars_inj. now rewrite E. }
  destruct (dropWs (chars p)) as [|x m] eqn:Hm; [now rewrite H in Hl|].
  pose proof (dropWs_head _ _ _ Hm) as Hx.
  rewrite (dropEnd_cons x m Hx) in H. split.
  - rewrite H. exact Hx.
  - assert (Hd : dropWs (chars p) = chars p).
    { apply startsVisible_dropWs. rewrite H. exact Hx. }
    pose proof (chars_trim p) as H2. rewrite Htrim, Hd in H2.
    apply (f_equal (@rev ascii)) in H2. rewrite rev_involutive in H2.
    destruct (dropWs (rev (chars p))) as [|y n] eqn:Hn.
    + exfalso. apply Hl. rewrite <- (rev_involutive (chars p)), H2. reflexivity.
    + rewrite H2. exact (dropWs_head _ _ _ Hn).
Qed.

Lemma trim_fixed (s : string) :
  startsVisible (chars s) -> startsVisible (rev (chars s)) -> JS.trim s = s.
Proof.
  intros H1 H2. apply chars_inj. rewrite chars_trim.
  rewrite (startsVisible_dropWs _ H1), (startsVisible_dropWs _ H2).
  apply rev_involutive.
Qed.

Lemma join_ends (sep : string) (ps : list string) :
  ps <> [] ->
  Forall (fun p => p <> EmptyString /\ JS.trim p = p) ps ->
  startsVisible (chars (JS.join sep ps)) /\
  startsVisible (rev (chars (JS.join sep ps))).
Proof.
  induction ps as [|p [|q r] IH]; intros Hne Hall; [contradiction| |].
  - inversion Hall as [|? ? [Hp1 Hp2] _]; subst. simpl. now apply clean_ends.
  - inversion Hall as [|? ? [Hp1 Hp2] Hrest]; subst.
    destruct (clean_ends p Hp1 Hp2) as [Hs _].
    destruct (IH ltac:(discriminate) Hrest) as [_ He].
    rewrite join_cons, !chars_append. split.
    + now apply startsVisible_app.
    + rewrite !rev_app_distr, <- app_assoc. now apply startsVisible_app.
Qed.

Lemma join_chars (sep : string) (ps : list string) (c : ascii) :
  In c (chars (JS.join sep ps)) ->
  In c (chars sep) \/ exists p, In p ps /\ In c (chars p).
Proof.
  induction ps as [|p [|q r] IH]; intros H.
  - simpl in H. tauto.
  - right. exists p. simpl in *. auto.
  - rewrite join_cons, !chars_append, !in_app_iff in H.
    destruct H as [H|[H|H]]; [right; exists p; simpl; auto | now left |].
    destruct (IH H) as [H'|(p' & Hp' & Hc)]; [now left|].
    right. exists p'. split; [now right | exact Hc].
Qed.

Lemma filter_nonempty_id (ps : list string) :
  Forall (fun p => p <> EmptyString) ps ->
  filter (fun item => 0 <? JS.len item) ps = ps.
Proof.
  induction 1 as [|p ps Hp _ IH]; simpl; [reflexivity|].
  destruct p as [|c p]; [contradiction|]. rewrite IH.
  unfold JS.len. simpl String.length.
  destruct (Z.ltb_spec 0 (Z.of_nat (S (String.length p)))); [reflexivity | lia].
Qed.

Lemma map_trim_id (ps : list string) :
  Forall (fun p => JS.trim p = p) ps -> map JS.trim ps = ps.
Proof.
  induction 1 as [|p ps Hp _ IH]; simpl; [reflexivity | now rewrite Hp, IH].
Qed.

(** What [split_message] does with a joined list of clean entries, once
    the split of the joined text is known. *)
Lemma split_message_joined (sep : string) (ps : list string) :
  ps <> [] ->
  Forall cleanEntry ps ->
  (if Startup.includesChar (JS.join sep ps) (ascii_of_nat 10) ||
      Startup.includesChar (JS.join sep ps) (ascii_of_nat 13)
   then Startup.splitRuns false (JS.join sep ps)
   else JS.split ","%char (JS.join sep ps)) = ps ->
  Startup.split_message (JS.join sep ps) = ps.
Proof.
  intros Hne Hall Hsplit.
  assert (Hall' : Forall (fun p => p <> EmptyString /\ JS.trim p = p) ps).
  { eapply Forall_impl; [|exact Hall]. intros p (H1 & H2 & _). auto. }
  destruct (join_ends sep ps Hne Hall') as [Hs He].
  pose proof (trim_fixed _ Hs He) as Htrim.
  unfold Startup.split_message. rewrite Htrim.
  assert (Hnonempty : JS.nonempty (JS.join sep ps) = true).
  { destruct (JS.join sep ps); [simpl in Hs; tauto | reflexivity]. }
  rewrite Hnonempty. cbn [negb]. rewrite Hsplit.
  rewrite map_trim_id, filter_nonempty_id; [reflexivity | |];
    eapply Forall_impl; try exact Hall'; simpl; tauto.
Qed.

(** X3.  Round trip for the two documented formats.  A non-empty list of
    clean entries (not empty, trimmed, no line break) without commas, joined
    with commas, is parsed back to the same list.  A list of at least two
    clean entries, which may hold commas, joined with line feeds, is parsed
    back to the same list. *)
Theorem split_message_round_trip (ps : list string) :
  Forall cleanEntry ps ->
  (ps <> [] ->
   Forall (fun p => Startup.includesChar p ","%char = false) ps ->
   Startup.split_message (JS.join "," ps) = ps) /\
  ((2 <= List.length ps)%nat ->
   Startup.split_message (JS.join JS.nl ps) = ps).
Proof.
  intros Hall. split.
  - intros Hne Hcomma. apply split_message_joined; auto.
    assert (Hno : forall c, Startup.isLineBreak c = true ->
                    Startup.includesChar (JS.join "," ps) c = false).
    { intros c Hc. apply includesChar_false. intros Hin.
      apply join_chars in Hin. destruct Hin as [[<-|[]]|(p & Hp & Hin)];
        [discriminate|].
      rewrite Forall_forall in Hall. destruct (Hall p Hp) as (_ & _ & Hlf & Hcr).
      apply includesChar_false in Hlf, Hcr.
      unfold Startup.isLineBreak in Hc. apply orb_true_iff in Hc.
      rewrite !Ascii.eqb_eq in Hc. destruct Hc as [->| ->]; auto. }
    rewrite !Hno by reflexivity. cbn [orb].
    apply (split_join ","%char ps Hne).
    eapply Forall_impl; [|exact Hcomma]. intros p. apply includesChar_false.
  - intros Hlen.
    assert (Hne : ps <> []) by (destruct ps; [simpl in Hlen; lia | discriminate]).
    apply split_message_joined; auto.
    assert (Hlf : Startup.includesChar (JS.join JS.nl ps) (ascii_of_nat 10) = true).
    { destruct ps as [|p [|q r]]; try (simpl in Hlen; lia).
      apply includesChar_In. rewrite join_cons, !chars_append, !in_app_iff.
      right. left. simpl. auto. }
    rewrite Hlf. cbn [orb]. clear Hlen Hlf.
    induction ps as [|p [|q r] IH]; [contradiction| |].
    + inversion Hall as [|? ? (_ & _ & Hlf & Hcr) _]; subst. simpl.
      apply splitRuns_no_break. intros c Hc. apply isLineBreak_false.
      apply includesChar_false in Hlf, Hcr. split; intros ->; auto.
    + inversion Hall as [|? ? (_ & _ & Hlf & Hcr) Hrest]; subst.
      rewrite join_cons. change (JS.nl +++ JS.join JS.nl (q :: r))
        with (String (ascii_of_nat 10) (JS.join JS.nl (q :: r))).
      rewrite splitRuns_app.
      * f_equal. rewrite splitRuns_after_run; [apply IH; [exact Hrest | discriminate]|].
        apply (join_ends JS.nl (q :: r)); [discriminate|].
        eapply Forall_impl; [|exact Hrest]. intros x (H1 & H2 & _). auto.
      * intros c Hc. apply isLineBreak_false.
        apply includesChar_false in Hlf, Hcr. split; intros ->; auto.
Qed.

(** Two patterns on one line, and two patterns on two lines, the second
    with a comma. *)
Lemma split_message_round_trip_witness :
  Forall cleanEntry ["src/"; "\.ts$"] /\
  Forall cleanEntry ["src/"; "a{1,2}"] /\
  Startup.split_message (JS.join "," ["src/"; "\.ts$"]) = ["src/"; "\.ts$"] /\
  Startup.split_message (JS.join JS.nl ["src/"; "a{1,2}"]) = ["src/"; "a{1,2}"].
Proof.
  assert (H1 : Forall cleanEntry ["src/"; "\.ts$"]).
  { repeat constructor; discriminate. }
  assert (H2 : Forall cleanEntry ["src/"; "a{1,2}"]).
  { repeat constructor; discriminate. }
  split; [exact H1|]. split; [exact H2|]. split.
  - apply (proj1 (split_message_round_trip _ H1)); [discriminate|].
    repeat constructor.
  - apply (proj2 (split_message_round_trip _ H2)). simpl. lia.
Defined.

(* ================================================================== *)
(** * The changed files and the order of the items *)
(* ================================================================== *)

(** X4.  The list of changed files built from the output of the name-only
    diff holds no blank name and no name with a line feed, so the first
    guard of the collector loop never fires on it; a blank output (nothing
    changed) gives the empty list.  Both pipelines build the same list. *)
Theorem changedFiles_entries (diffOutput : string) :
  Forall (fun file =>
            JS.nonempty (JS.trim file) = true /\
            Startup.includesChar file (ascii_of_nat 10) = false)
    (Enhanced.changedFiles diffOutput) /\
  (hasVisible diffOutput = false -> Enhanced.changedFiles diffOutput = []) /\
  Old.changedFiles diffOutput = Enhanced.changedFiles diffOutput.
Proof.
  split; [|split; [|reflexivity]].
  - unfold Enhanced.changedFiles. apply Forall_forall. intros file Hin.
    apply filter_In in Hin. destruct Hin as [Hin Hfile]. split; [exact Hfile|].
    pose proof (split_pieces (ascii_of_nat 10) (JS.trim diffOutput)) as Hall.
    rewrite Forall_forall in Hall. destruct (Hall file Hin) as [Hsep _].
    now apply includesChar_false.
  - intros Hblank. unfold Enhanced.changedFiles.
    pose proof (nonempty_trim diffOutput) as Ht. rewrite Hblank in Ht.
    destruct (JS.trim diffOutput); [reflexivity | discriminate].
Qed.

(** An output of blank lines only. *)
Lemma changedFiles_entries_witness :
  hasVisible (JS.nl +++ "  " +++ JS.nl) = false /\
  Enhanced.changedFiles (JS.nl +++ "  " +++ JS.nl) = [].
Proof.
  split; [reflexivity|].
  apply (proj1 (proj2 (changedFiles_entries (JS.nl +++ "  " +++ JS.nl)))).
  reflexivity.
Defined.

Lemma Subsequence_refl_nil {A} (l : list A) : Subsequence [] l.
Proof. induction l; constructor; auto. Qed.

Section OrderFacts.
Context {engine : RegExpEngine}.
Variable P : Program.

Lemma collectLoop_order (cmd : string -> string) :
  forall files items w,
  exists new w',
    Enhanced.collectLoop P cmd files items w = (Ok (items ++ new), w') /\
    Subsequence (map path new) files.
Proof.
  induction files as [|file rest IH]; intros items w.
  - exists [], w. simpl. unfold ret. rewrite app_nil_r. split; constructor.
  - assert (Hskip : forall w0,
      exists new w',
        Enhanced.collectLoop P cmd rest items w0 = (Ok (items ++ new), w') /\
        Subsequence (map path new) (file :: rest)).
    { intros w0. destruct (IH items w0) as (new & w' & Hrun & Hsub).
      exists new, w'. split; [exact Hrun | now constructor]. }
    cbn [Enhanced.collectLoop].
    destruct (negb (JS.nonempty (JS.trim file))); [apply Hskip|].
    destruct (Enhanced.notIncluded P file); [apply Hskip|].
    destruct (Enhanced.excluded P file); [apply Hskip|].
    unfold bind, tryCatch, execSync, ret. cbv beta.
    destruct (exec (oracle w) (io w) (cmd file)) as [D|msg]; [|apply Hskip].
    destruct (JS.nonempty (JS.trim D)); [|apply Hskip].
    destruct (IH (items ++ [mkDiffItem file (Enhanced.limitDiff D)])
                (record (IoExec (cmd file)) w)) as (new & w' & Hrun & Hsub).
    exists (mkDiffItem file (Enhanced.limitDiff D) :: new), w'.
    rewrite Hrun, <- app_assoc. split; [reflexivity|].
    simpl. now constructor.
Qed.

(** X5.  The items a collector returns follow the order of the name-only
    diff: their paths are the list of changed files with some files left
    out, none added, none moved. *)
Theorem collector_order (w w' : World) (items : list DiffItem) :
  (Enhanced.getHeadDiffContext P w = (Ok items, w') ->
   exists names,
     exec (oracle w) (io w) "git diff --name-only HEAD^" = Stdout names /\
     Subsequence (map path items) (Enhanced.changedFiles names)) /\
  (Enhanced.getPrDiffContext P w = (Ok items, w') ->
   exists history names,
     exec (oracle w) history
       ("git diff --name-only origin/" +++
        JS.orElse (INPUT_BASE_REF (env P)) "main" +++ "...HEAD") = Stdout names /\
     Subsequence (map path items) (Enhanced.changedFiles names)).
Proof.
  split; intros Hrun.
  - unfold Enhanced.getHeadDiffContext, bind, execSync in Hrun.
    destruct (exec (oracle w) (io w) _) as [names|] eqn:Hnames; [|discriminate].
    exists names. split; [reflexivity|].
    destruct (collectLoop_order Enhanced.headDiffCommand
                (Enhanced.changedFiles names) [] (record (IoExec "git diff --name-only HEAD^") w))
      as (new & w1 & Hloop & Hsub).
    rewrite Hloop in Hrun. injection Hrun as <- _. exact Hsub.
  - unfold Enhanced.getPrDiffContext, bind, execSync in Hrun.
    destruct (exec (oracle w) (io w) _) as [fetched|]; [|discriminate].
    destruct (exec (oracle _) (io _) _) as [names|] eqn:Hnames; [|discriminate].
    eexists _, names. split; [exact Hnames|].
    destruct (_ =? 0)%nat.
    + unfold ret in Hrun. injection Hrun as <- _. apply Subsequence_refl_nil.
    + match type of Hrun with
      | Enhanced.collectLoop _ ?cmd ?files [] ?w0 = _ =>
          destruct (collectLoop_order cmd files [] w0) as (new & w1 & Hloop & Hsub)
      end.
      rewrite Hloop in Hrun. injection Hrun as <- _. exact Hsub.
Qed.

End OrderFacts.

(** The sample commit with the exclude pattern [index]: the second file
    only. *)
Lemma collector_order_witness :
  let P := Example.program (Enhanced.defaultConfig [] ["index"] false) Example.noEnv in
  let w := Example.start (Example.scripted [] Example.headRepo) in
  let out := @Enhanced.getHeadDiffContext Example.literalEngine P w in
  out = (Ok [mkDiffItem "src/utils.test.ts" "+test();"], snd out) /\
  exists names,
    Subsequence ["src/utils.test.ts"] (Enhanced.changedFiles names).
Proof.
  intros P w out.
  assert (Hout : out = (Ok [mkDiffItem "src/utils.test.ts" "+test();"], snd out))
    by (vm_compute; reflexivity).
  split; [exact Hout|].
  destruct (proj1 (@collector_order Example.literalEngine P w (snd out) _) Hout)
    as (names & _ & Hsub).
  exists names. exact Hsub.
Defined.

(* ================================================================== *)
(** * Failures of the collectors and of the connectivity test *)
(* ================================================================== *)

(** X6.  Which failures of git are fatal and which are not.  A failing
    fetch, or a failing name-only diff (against the base branch after the
    fetch in pull request mode, against [HEAD^] in commit mode), makes the
    collector throw that error at once: no further command is run.  A
    failing diff of one file in scope drops that file and the loop goes on
    with the rest; the loop over the files never throws. *)
Theorem collector_failures {engine : RegExpEngine} (P : Program) (w : World) :
  let baseRef := JS.orElse (INPUT_BASE_REF (env P)) "main" in
  let fetch := "git fetch origin " +++ baseRef in
  let nameOnly := "git diff --name-only origin/" +++ baseRef +++ "...HEAD" in
  (forall msg,
     exec (oracle w) (io w) fetch = ExecError msg ->
     Enhanced.getPrDiffContext P w
       = (Throw (ExecFailed msg), record (IoExec fetch) w)) /\
  (forall out msg,
     exec (oracle w) (io w) fetch = Stdout out ->
     exec (oracle w) (io w ++ [IoExec fetch]) nameOnly = ExecError msg ->
     Enhanced.getPrDiffContext P w
       = (Throw (ExecFailed msg),
          record (IoExec nameOnly) (record (IoExec fetch) w))) /\
  (forall msg,
     exec (oracle w) (io w) "git diff --name-only HEAD^" = ExecError msg ->
     Enhanced.getHeadDiffContext P w
       = (Throw (ExecFailed msg), record (IoExec "git diff --name-only HEAD^") w)) /\
  (forall cmd F rest items msg,
     exec (oracle w) (io w) (cmd F) = ExecError msg ->
     Enhanced.inScope P F = true ->
     JS.nonempty (JS.trim F) = true ->
     Enhanced.collectLoop P cmd (F :: rest) items w
       = Enhanced.collectLoop P cmd rest items (record (IoExec (cmd F)) w)) /\
  (forall cmd files items,
     exists items' w',
       Enhanced.collectLoop P cmd files items w = (Ok items', w')).
Proof.
  intros baseRef fetch nameOnly. split; [|split; [|split; [|split]]].
  - intros msg Hfail. unfold Enhanced.getPrDiffContext, bind, execSync.
    fold baseRef. fold fetch. now rewrite Hfail.
  - intros out msg Hfetch Hfail.
    unfold Enhanced.getPrDiffContext, bind, execSync.
    fold baseRef. fold fetch. fold nameOnly. rewrite Hfetch.
    cbn [oracle io record]. now rewrite Hfail.
  - intros msg Hfail. unfold Enhanced.getHeadDiffContext, bind, execSync.
    now rewrite Hfail.
  - intros cmd F rest items msg Hfail Hin HF.
    unfold Enhanced.inScope in Hin. cbn [Enhanced.collectLoop].
    rewrite HF. cbn [negb].
    destruct (Enhanced.notIncluded P F); [discriminate|].
    destruct (Enhanced.excluded P F); [discriminate|].
    unfold bind, tryCatch, execSync, ret. cbv beta. now rewrite Hfail.
  - intros cmd files items.
    destruct (collectLoop_order P cmd files items w) as (new & w' & Hrun & _).
    eauto.
Qed.

(** The diff of the first file cannot be read: the second file is still
    collected.  In pull request mode, a base branch that cannot be
    compared after the fetch: the collector throws after these two
    commands. *)
Lemma collector_failures_witness :
  let w := Example.start (Example.scripted [] Example.brokenFile) in
  let pr := Example.start (Example.scripted [] Example.noMergeBase) in
  exec (oracle w) (io w) (Enhanced.headDiffCommand "src/index.ts")
    = ExecError "fatal: bad object" /\
  fst (@Enhanced.collectLoop Example.literalEngine Example.enhanced
         Enhanced.headDiffCommand ["src/index.ts"; "src/utils.test.ts"] [] w)
    = Ok [mkDiffItem "src/utils.test.ts" "+test();"] /\
  exec (oracle pr) (io pr) "git fetch origin main" = Stdout EmptyString /\
  @Enhanced.getPrDiffContext Example.literalEngine Example.enhanced pr
    = (Throw (ExecFailed "fatal: no merge base"),
       mkWorld (oracle pr)
         [IoExec "git fetch origin main";
          IoExec "git diff --name-only origin/main...HEAD"] []).
Proof.
  intros w pr. split; [reflexivity|]. split; [|split; [reflexivity|]].
  - rewrite (proj1 (proj2 (proj2 (proj2 (@collector_failures Example.literalEngine
                                            Example.enhanced w))))
               Enhanced.headDiffCommand "src/index.ts" ["src/utils.test.ts"] []
               "fatal: bad object" eq_refl eq_refl eq_refl).
    reflexivity.
  - apply (proj1 (proj2 (@collector_failures Example.literalEngine
                           Example.enhanced pr))
             EmptyString "fatal: no merge base" eq_refl eq_refl).
Defined.

(** X7.  The connectivity test.  [testConnection] never throws: it sends
    one GET to [url/api/tags] with a timeout of 10000 and reports success
    exactly when the GET resolves.  When the GET is rejected,
    [aiCheckDiffContext] ends the process with code 1 and that GET is all
    it has done: no git command, no request to the generation service, no
    delay. *)
Theorem connectivity_gate {engine : RegExpEngine} (P : Program) (w : World) :
  let probe := IoGet (url P +++ "/api/tags") 10000 in
  (exists result,
     Utils.testConnection (url P) w = (Ok result, record probe w) /\
     (Utils.success result = true <->
      exists body, net_get (oracle w) (io w) (url P +++ "/api/tags") = Resolve body)) /\
  (forall msg,
     net_get (oracle w) (io w) (url P +++ "/api/tags") = Reject msg ->
     Enhanced.testOllamaConnection P w
       = (Throw (ConnectivityFailed ("Connection failed: " +++ msg)), record probe w) /\
     Enhanced.aiCheckDiffContext P w = (ProcessExit 1, record probe w) /\
     Enhanced.main P w = (1, record probe w)).
Proof.
  intros probe. split.
  - unfold Utils.testConnection, tryCatch, bind, Utils.get, ret.
    destruct (net_get (oracle w) (io w) (url P +++ "/api/tags")) as [body|msg].
    + eexists. split; [reflexivity|]. simpl. split; eauto.
    + eexists. split; [reflexivity|]. simpl.
      split; [discriminate | intros [body H]; discriminate].
  - intros msg Hget.
    assert (Htest : Enhanced.testOllamaConnection P w
                    = (Throw (ConnectivityFailed ("Connection failed: " +++ msg)),
                       record probe w)).
    { unfold Enhanced.testOllamaConnection, Utils.testConnection,
        tryCatch, bind, Utils.get, ret. cbv beta. now rewrite Hget. }
    split; [exact Htest|].
    unfold Enhanced.main, Enhanced.aiCheckDiffContext,
      Enhanced.aiCheckDiffContextBody, bind.
    rewrite Htest. split; reflexivity.
Qed.

(** The generation service cannot be reached: exit code 1 after one GET. *)
Lemma connectivity_gate_witness :
  let w := Example.start Example.unreachable in
  net_get (oracle w) (io w) (url Example.enhanced +++ "/api/tags")
    = Reject "connection refused" /\
  @Enhanced.main Example.literalEngine Example.enhanced w
    = (1, mkWorld Example.unreachable [IoGet "http://localhost:11434/api/tags" 10000] []).
Proof.
  intros w. split; [reflexivity|].
  apply (proj2 (@connectivity_gate Example.literalEngine Example.enhanced w)
           "connection refused" eq_refl).
Defined.

(* ================================================================== *)
(** * How often the executor runs an operation *)
(* ================================================================== *)

Section RetryBounds.
Variable P : Program.
Context {T : Type}.
Variable operation : M T.
Variable maxRetries : Z.
Variable useExponentialBackoff : bool.


Lemma withRetryLoop_count (req : Request) :
  sendsOne req operation ->
  forall fuel attempt lastError w,
  exists n,
    (n <= fuel)%nat /\
    (attempt <= maxRetries -> (1 <= fuel)%nat -> (1 <= n)%nat) /\
    posts (io (snd (Enhanced.withRetryLoop P operation maxRetries
                      useExponentialBackoff fuel attempt lastError w)))
    = posts (io w) ++ repeat req n.
Proof.
  intros Hop. induction fuel as [|fuel IH]; intros attempt lastError w.
  - exists 0%nat. simpl. split; [lia|]. split; [lia|].
    destruct lastError; simpl; now rewrite app_nil_r.
  - simpl. destruct (Z.leb_spec attempt maxRetries).
    + unfold tryCatch. pose proof (Hop w) as H1.
      destruct (operation w) as [[v|e] w1]; simpl in H1.
      * exists 1%nat. simpl. split; [lia|]. split; [lia | exact H1].
      * destruct (hasMessage e);
          [|exists 1%nat; simpl; split; [lia|]; split; [lia | exact H1]].
        cbn [negb]. unfold bind.
        assert (Hnext : exists w2,
                  io w2 = io w1 /\
                  (let (r, w') :=
                     (if attempt <? maxRetries
                      then sleep (Enhanced.retryWait P useExponentialBackoff attempt)
                      else ret tt) w1 in
                   match r with
                   | Ok a =>
                       Enhanced.withRetryLoop P operation maxRetries
                         useExponentialBackoff fuel (attempt + 1) (Some e) w'
                   | Throw e0 => (Throw e0, w')
                   end)
                  = Enhanced.withRetryLoop P operation maxRetries
                      useExponentialBackoff fuel (attempt + 1) (Some e) w2).
        { destruct (attempt <? maxRetries); simpl;
            eexists; (split; [|reflexivity]); reflexivity. }
        destruct Hnext as (w2 & Hio & ->).
        destruct (IH (attempt + 1) (Some e) w2) as (n & Hn & _ & Hposts).
        exists (S n). split; [lia|]. split; [lia|].
        rewrite Hposts, Hio, H1, <- app_assoc. reflexivity.
    + exists 0%nat. split; [lia|]. split; [lia|].
      destruct lastError; simpl; now rewrite app_nil_r.
Qed.

End RetryBounds.


Lemma post_sendsOne (r : Request) : sendsOne r (Utils.post r).
Proof.
  intros w. unfold Utils.post.
  destruct (net_post (oracle w) (io w) r); simpl; now rewrite posts_app.
Qed.


(* ================================================================== *)
(** * The requests of the publisher and of the generation client *)
(* ================================================================== *)


(* ================================================================== *)
(** * The oracle stays in place *)
(* ================================================================== *)

Lemma keeps_ret {A} (a : A) : keepsOracle (ret a).
Proof. intros w. reflexivity. Qed.

Lemma keeps_throw {A} (e : Error) : keepsOracle (@throw A e).
Proof. intros w. reflexivity. Qed.

Lemma keeps_sleep (ms : Z) : keepsOracle (sleep ms).
Proof. intros w. reflexivity. Qed.

Lemma keeps_now : keepsOracle now.
Proof. intros w. reflexivity. Qed.

Lemma keeps_post (r : Request) : keepsOracle (Utils.post r).
Proof.
  intros w. unfold Utils.post. now destruct (net_post (oracle w) (io w) r).
Qed.

Lemma keeps_bind {A B} (m : M A) (k : A -> M B) :
  keepsOracle m -> (forall a, keepsOracle (k a)) -> keepsOracle (bind m k).
Proof.
  intros Hm Hk w. unfold bind. pose proof (Hm w) as H.
  destruct (m w) as [[a|e] w1]; simpl in *; [|exact H].
  now rewrite (Hk a w1).
Qed.

Lemma keeps_tryCatch {A} (m : M A) (h : Error -> M A) :
  keepsOracle m -> (forall e, keepsOracle (h e)) -> keepsOracle (tryCatch m h).
Proof.
  intros Hm Hh w. unfold tryCatch. pose proof (Hm w) as H.
  destruct (m w) as [[a|e] w1]; simpl in *; [exact H|].
  now rewrite (Hh e w1).
Qed.

Lemma keeps_withRetryLoop {T} (P : Program) (operation : M T)
    (maxRetries : Z) (useExponentialBackoff : bool) :
  keepsOracle operation ->
  forall fuel attempt lastError,
    keepsOracle (Enhanced.withRetryLoop P operation maxRetries
                   useExponentialBackoff fuel attempt lastError).
Proof.
  intros Hop. induction fuel as [|fuel IH]; intros attempt lastError.
  - simpl. destruct lastError; apply keeps_throw.
  - simpl. destruct (attempt <=? maxRetries).
    + apply keeps_tryCatch; [exact Hop|]. intros e.
      destruct (hasMessage e); [|apply keeps_throw]. cbn [negb].
      apply keeps_bind; [|intros _; apply IH].
      destruct (attempt <? maxRetries); [apply keeps_sleep | apply keeps_ret].
    + destruct lastError; apply keeps_throw.
Qed.

Lemma keeps_validateResponse (response : JSON) :
  keepsOracle (Enhanced.validateResponse response).
Proof.
  intros w. destruct (invalidBody response) eqn:Hinv.
  - destruct (validateResponse_invalid response Hinv) as [e He]. now rewrite He.
  - now rewrite validateResponse_valid.
Qed.

Lemma keeps_generateOnce (P : Program) (host : string) (token : option string)
    (body : JSON) : keepsOracle (Enhanced.generateOnce P host token body).
Proof.
  apply keeps_bind; [apply keeps_post | apply keeps_validateResponse].
Qed.

Lemma keeps_aiGenerate (P : Program) (host : string) (token prompt : option string)
    (model : string) (system : option string) :
  keepsOracle (Enhanced.aiGenerate P host token prompt model system).
Proof.
  unfold Enhanced.aiGenerate. destruct prompt as [p|]; [|apply keeps_throw].
  destruct (negb (JS.nonempty (JS.trim p))); [apply keeps_throw|].
  apply keeps_withRetryLoop, keeps_generateOnce.
Qed.

Lemma keeps_pushComments (P : Program) (message : string) :
  keepsOracle (Enhanced.pushComments P message).
Proof.
  unfold Enhanced.pushComments.
  destruct (negb (JS.truthyStr (INPUT_PULL_REQUEST_NUMBER (env P))));
    [apply keeps_ret|].
  destruct (negb (JS.truthyStr (INPUT_REPOSITORY (env P))) ||
            negb (JS.truthyStr (INPUT_TOKEN (env P)))); [apply keeps_throw|].
  apply keeps_withRetryLoop, keeps_post.
Qed.

Lemma keeps_reviewItem (P : Program) (i : nat) (item : DiffItem) :
  keepsOracle (Enhanced.reviewItem P i item).
Proof.
  unfold Enhanced.reviewItem.
  apply keeps_bind;
    [destruct (0 <? i)%nat; [apply keeps_sleep | apply keeps_ret]|].
  intros _. apply keeps_bind; [apply keeps_aiGenerate|]. intros response.
  destruct (prop response "response") as [[| | | commit | |]|];
    try apply keeps_throw.
  apply keeps_bind; [apply keeps_now|]. intros timestamp.
  apply keeps_bind; [apply keeps_pushComments|]. intros resp.
  destruct (negb (truthyProp (prop resp "id")));
    [apply keeps_throw | apply keeps_ret].
Qed.

Lemma keeps_reviewLoop (P : Program) :
  forall items i c w, oracle (snd (Enhanced.reviewLoop P i items c w)) = oracle w.
Proof.
  induction items as [|item rest IH]; intros i c w; [reflexivity|].
  cbn [Enhanced.reviewLoop]. pose proof (keeps_reviewItem P i item w) as H.
  destruct (Enhanced.reviewItem P i item w) as [[u|e] w1]; simpl in H;
    rewrite IH; exact H.
Qed.

(** A value the executor returns is one the operation returned under the
    same oracle. *)
Lemma withRetryLoop_ok_here {T} (P : Program) (operation : M T)
    (maxRetries : Z) (useExponentialBackoff : bool) :
  keepsOracle operation ->
  forall fuel attempt lastError w v w',
    Enhanced.withRetryLoop P operation maxRetries useExponentialBackoff
      fuel attempt lastError w = (Ok v, w') ->
    exists w0 w1, oracle w0 = oracle w /\ operation w0 = (Ok v, w1).
Proof.
  intros Hkeep. induction fuel as [|fuel IH]; intros attempt lastError w v w' Hrun.
  - simpl in Hrun. destruct lastError; discriminate.
  - simpl in Hrun. destruct (attempt <=? maxRetries).
    + unfold tryCatch in Hrun. pose proof (Hkeep w) as Hw.
      destruct (operation w) as [[v0|e] w1] eqn:Hop; simpl in Hw.
      * injection Hrun as <- _. eauto.
      * destruct (hasMessage e); [|discriminate]. cbn [negb] in Hrun.
        unfold bind in Hrun.
        destruct (attempt <? maxRetries); simpl in Hrun;
          apply IH in Hrun; destruct Hrun as (w0 & w2 & Ho & Hop');
          exists w0, w2; (split; [|exact Hop']); rewrite Ho; simpl; exact Hw.
    + destruct lastError; discriminate.
Qed.

(* ================================================================== *)
(** * The requests of the publisher and of the generation client *)
(* ================================================================== *)

(** X9.  With a pull request number, a repository and a token configured
    (and [maxRetries >= 1]), [pushComments] sends the comment as
    [{body: message}] to
    [apiUrl/repos/repository/issues/number/comments], where [apiUrl] falls
    back to [https://api.github.com]: at least once, at most [maxRetries]
    times, and nothing else.  When the first request resolves, its body is
    returned as it is after that single request, whether it holds an [id]
    or not; a body it returns is one the endpoint resolved with. *)
Theorem pushComments_requests (P : Program) (message : string) (w : World)
    (number repository token : string) :
  INPUT_PULL_REQUEST_NUMBER (env P) = Some number -> JS.nonempty number = true ->
  INPUT_REPOSITORY (env P) = Some repository -> JS.nonempty repository = true ->
  INPUT_TOKEN (env P) = Some token -> JS.nonempty token = true ->
  1 <= maxRetries (config P) ->
  let endpoint :=
    JS.orElse (GITHUB_API_URL (env P)) "https://api.github.com" +++
    "/repos/" +++ repository +++ "/issues/" +++ number +++ "/comments" in
  let req := Enhanced.commentRequest endpoint token message in
  req_url req = endpoint /\
  req_body req = JObj [("body", JStr message)] /\
  (exists n, (1 <= n <= Z.to_nat (maxRetries (config P)))%nat /\
             sentBy (Enhanced.pushComments P message) w = repeat req n) /\
  (forall body,
     net_post (oracle w) (io w) req = Resolve body ->
     Enhanced.pushComments P message w = (Ok body, record (IoPost req) w)) /\
  (forall body w',
     Enhanced.pushComments P message w = (Ok body, w') ->
     exists history, net_post (oracle w) history req = Resolve body).
Proof.
  intros Hn Hn' Hr Hr' Ht Ht' Hmax endpoint req.
  assert (Hpush : Enhanced.pushComments P message
                  = Enhanced.withRetry P (Utils.post req) "push comment"
                      (maxRetries (config P)) false).
  { unfold Enhanced.pushComments. rewrite Hn, Hr, Ht. simpl.
    rewrite Hn', Hr', Ht'. reflexivity. }
  split; [reflexivity|]. split; [reflexivity|]. rewrite Hpush.
  split; [|split].
  - destruct (withRetryLoop_count P (Utils.post req) (maxRetries (config P)) false
                req (post_sendsOne req) (Z.to_nat (maxRetries (config P))) 1 None w)
      as (n & Hle & Hge & Hposts).
    exists n. split; [split; [apply Hge; lia | exact Hle]|].
    unfold sentBy, Enhanced.withRetry.
    rewrite Hposts, skipn_app, skipn_all, Nat.sub_diag. reflexivity.
  - intros body Hres. unfold Enhanced.withRetry.
    apply (withRetryLoop_schedule P (Utils.post req) (maxRetries (config P)) false
             [] (Ok body)).
    + simpl. unfold Utils.post. now rewrite Hres.
    + simpl. lia.
    + simpl. lia.
    + now left.
    + reflexivity.
  - intros body w' Hrun. unfold Enhanced.withRetry in Hrun.
    apply (withRetryLoop_ok_here P _ _ _ (keeps_post req)) in Hrun.
    destruct Hrun as (w0 & w1 & Ho & Hop). unfold Utils.post in Hop.
    exists (io w0). rewrite <- Ho.
    destruct (net_post (oracle w0) (io w0) req);
      [now injection Hop as <- _ | discriminate].
Qed.

(** One refusal, then the created comment: two requests to the endpoint of
    pull request 7. *)
Lemma pushComments_requests_witness :
  let P := Example.program (Enhanced.defaultConfig [] [] false) Example.publishing in
  let w := Example.start
             (Example.scripted [Reject "reset"; Resolve Example.created]
                Example.noCommands) in
  1 <= maxRetries (config P) /\
  map req_url (sentBy (Enhanced.pushComments P "# review") w)
    = ["https://api.github.com/repos/owner/repo/issues/7/comments";
       "https://api.github.com/repos/owner/repo/issues/7/comments"] /\
  (List.length (sentBy (Enhanced.pushComments P "# review") w) <= 3)%nat.
Proof.
  intros P w. split; [simpl; lia|]. split; [reflexivity|].
  destruct (pushComments_requests P "# review" w "7" "owner/repo" "secret"
              eq_refl eq_refl eq_refl eq_refl eq_refl eq_refl ltac:(simpl; lia))
    as (_ & _ & (n & [_ Hn] & Hsent) & _).
  rewrite Hsent, repeat_length. exact Hn.
Defined.

Lemma generateOnce_sendsOne (P : Program) (host : string) (token : option string)
    (body : JSON) :
  sendsOne (Enhanced.generateRequest P host token body)
    (Enhanced.generateOnce P host token body).
Proof.
  intros w. rewrite generateOnce_world. simpl. now rewrite posts_app.
Qed.

Lemma aiGenerate_count (P : Program) (host : string) (token : option string)
    (p model : string) (system : option string) (w : World) :
  hasVisible p = true ->
  exists n, (1 <= n <= 2)%nat /\
    sentBy (Enhanced.aiGenerate P host token (Some p) model system) w
    = repeat
        (Enhanced.generateRequest P host token
           (Enhanced.requestData P
              (Enhanced.truncatePrompt (JS.trim p)
                 (maxPromptLength (config P))) model system)) n.
Proof.
  intros Hp. unfold Enhanced.aiGenerate. rewrite nonempty_trim, Hp.
  cbn [negb].
  destruct (withRetryLoop_count P
              (Enhanced.generateOnce P host token
                 (Enhanced.requestData P
                    (Enhanced.truncatePrompt (JS.trim p)
                       (maxPromptLength (config P))) model system))
              2 true _ (generateOnce_sendsOne P host token _)
              (Z.to_nat 2) 1 None w) as (n & Hle & Hge & Hposts).
  exists n. split; [split; [apply Hge; simpl; lia | exact Hle]|].
  unfold sentBy, Enhanced.withRetry.
  rewrite Hposts, skipn_app, skipn_all, Nat.sub_diag. reflexivity.
Qed.

(** X10.  [aiGenerate] sends nothing for an absent or blank prompt.  For
    any other prompt it sends one request, or the same request twice, and
    nothing else: a POST to [host/api/generate] with the timeout of the
    configuration, carrying the trimmed and capped prompt, the model, and
    [stream: false]. *)
Theorem aiGenerate_requests (P : Program) (host : string)
    (token prompt : option string) (model : string) (system : option string)
    (w : World) :
  let sent := sentBy (Enhanced.aiGenerate P host token prompt model system) w in
  (prompt = None \/
   (exists p, prompt = Some p /\ hasVisible p = false) -> sent = []) /\
  (forall p, prompt = Some p -> hasVisible p = true ->
     exists n, (1 <= n <= 2)%nat /\
       sent = repeat
                (Enhanced.generateRequest P host token
                   (Enhanced.requestData P
                      (Enhanced.truncatePrompt (JS.trim p)
                         (maxPromptLength (config P))) model system)) n) /\
  (forall r, In r sent ->
     req_url r = host +++ "/api/generate" /\
     req_timeout r = timeout (config P) /\
     prop (req_body r) "model" = Some (JStr model) /\
     prop (req_body r) "stream" = Some (JBool false)).
Proof.
  intros sent. subst sent.
  assert (Hblank : prompt = None \/
                   (exists p, prompt = Some p /\ hasVisible p = false) ->
                   sentBy (Enhanced.aiGenerate P host token prompt model system) w = []).
  { intros [-> | (p & -> & Hp)]; unfold Enhanced.aiGenerate;
      [apply sentBy_throw|].
    rewrite nonempty_trim, Hp. apply sentBy_throw. }
  assert (Hsome : forall p, prompt = Some p -> hasVisible p = true ->
            exists n, (1 <= n <= 2)%nat /\
              sentBy (Enhanced.aiGenerate P host token prompt model system) w
              = repeat
                  (Enhanced.generateRequest P host token
                     (Enhanced.requestData P
                        (Enhanced.truncatePrompt (JS.trim p)
                           (maxPromptLength (config P))) model system)) n).
  { intros p -> Hp. now apply aiGenerate_count. }
  split; [exact Hblank|]. split; [exact Hsome|].
  intros r Hr. destruct prompt as [p|]; [|rewrite Hblank in Hr; [destruct Hr | now left]].
  destruct (hasVisible p) eqn:Hp.
  - destruct (Hsome p eq_refl Hp) as (n & _ & Hsent).
    rewrite Hsent in Hr. apply repeat_spec in Hr. subst r. repeat split.
  - rewrite Hblank in Hr; [destruct Hr|]. right. now exists p.
Qed.

(** A blank prompt: nothing sent.  A diff, the service refusing: two
    requests. *)
Lemma aiGenerate_requests_witness :
  let w := Example.start (Example.scripted [] Example.noCommands) in
  hasVisible "   " = false /\
  sentBy (Enhanced.aiGenerate Example.enhanced "http://localhost:11434" None
            (Some "   ") "codellama" None) w = [] /\
  hasVisible "+const a = 1;" = true /\
  (List.length
     (sentBy (Enhanced.aiGenerate Example.enhanced "http://localhost:11434" None
                (Some "+const a = 1;") "codellama" None) w) <= 2)%nat.
Proof.
  intros w. split; [reflexivity|]. split.
  - apply (proj1 (aiGenerate_requests Example.enhanced "http://localhost:11434"
                    None (Some "   ") "codellama" None w)).
    right. now exists "   ".
  - split; [reflexivity|].
    destruct (proj1 (proj2 (aiGenerate_requests Example.enhanced
                              "http://localhost:11434" None
                              (Some "+const a = 1;") "codellama" None w))
                "+const a = 1;" eq_refl eq_refl) as (n & [_ Hn] & Hsent).
    rewrite Hsent, repeat_length. exact Hn.
Defined.

Lemma limitDiff_visible (D : string) :
  hasVisible D = true -> hasVisible (Enhanced.limitDiff D) = true.
Proof.
  intros HD. unfold Enhanced.limitDiff.
  destruct (10000 <? JS.len D); [|exact HD].
  rewrite hasVisible_append.
  replace (hasVisible (JS.nl +++ "... [diff truncated for length]")) with true
    by reflexivity.
  apply orb_true_r.
Qed.

(** X11.  Every item a collector returns has a diff text that is not
    blank, also after the cap, so reviewing it never stops at the
    empty-prompt check: [aiGenerate] sends the generation request for it
    once or twice. *)
Theorem collected_items_reach_generation {engine : RegExpEngine} (P : Program)
    (w w' : World) (items : list DiffItem) :
  Enhanced.getPrDiffContext P w = (Ok items, w') \/
  Enhanced.getHeadDiffContext P w = (Ok items, w') ->
  Forall (fun it =>
            JS.nonempty (JS.trim (context it)) = true /\
            forall host token model system w0,
              (1 <= List.length
                      (sentBy (Enhanced.aiGenerate P host token
                                 (Some (context it)) model system) w0) <= 2)%nat)
    items.
Proof.
  intros Hrun.
  eapply Forall_impl; [|exact (collector_items P w w' items Hrun)].
  intros it [_ (D & HD & Hctx)].
  assert (Hvis : hasVisible (context it) = true).
  { rewrite Hctx. apply limitDiff_visible. now rewrite <- nonempty_trim. }
  split; [now rewrite nonempty_trim|].
  intros host token model system w0.
  destruct (aiGenerate_count P host token (context it) model system w0 Hvis)
    as (n & Hn & ->).
  now rewrite repeat_length.
Qed.

(** The two files of the sample commit are collected and sent on. *)
Lemma collected_items_reach_generation_witness :
  let P := Example.enhanced in
  let w := Example.start (Example.scripted [] Example.headRepo) in
  let out := @Enhanced.getHeadDiffContext Example.literalEngine P w in
  let items := [mkDiffItem "src/index.ts" "+const a = 1;";
                mkDiffItem "src/utils.test.ts" "+test();"] in
  out = (Ok items, snd out) /\
  Forall (fun it => JS.nonempty (JS.trim (context it)) = true) items.
Proof.
  intros P w out items.
  assert (Hout : out = (Ok items, snd out)) by (vm_compute; reflexivity).
  split; [exact Hout|].
  eapply Forall_impl;
    [| exact (@collected_items_reach_generation Example.literalEngine P w
                (snd out) items (or_intror Hout))].
  now intros it [H _].
Defined.

(* ================================================================== *)
(** * Whole runs *)
(* ================================================================== *)

Lemma keeps_execSync (cmd : string) : keepsOracle (execSync cmd).
Proof.
  intros w. unfold execSync. now destruct (exec (oracle w) (io w) cmd).
Qed.

Lemma keeps_testOllamaConnection (P : Program) :
  keepsOracle (Enhanced.testOllamaConnection P).
Proof.
  unfold Enhanced.testOllamaConnection. apply keeps_bind.
  - unfold Utils.testConnection. apply keeps_tryCatch.
    + apply keeps_bind; [|intros; apply keeps_ret].
      intros w. unfold Utils.get. now destruct (net_get (oracle w) (io w) _).
    + intros e. apply keeps_ret.
  - intros result. destruct (Utils.success result);
      [apply keeps_ret | apply keeps_throw].
Qed.

Lemma keeps_collector {engine : RegExpEngine} (P : Program) :
  keepsOracle (collector P).
Proof.
  assert (Hloop : forall cmd files, keepsOracle (Enhanced.collectLoop P cmd files [])).
  { intros cmd files w.
    destruct (collectLoop_items P cmd files [] w) as (new & w' & Hrun & Ho & _).
    now rewrite Hrun. }
  unfold collector, Enhanced.getPrDiffContext, Enhanced.getHeadDiffContext.
  destruct (reviewPullRequest (config P)).
  - apply keeps_bind; [apply keeps_execSync|]. intros _.
    apply keeps_bind; [apply keeps_execSync|]. intros names.
    destruct (_ =? 0)%nat; [apply keeps_ret | apply Hloop].
  - apply keeps_bind; [apply keeps_execSync|]. intros names. apply Hloop.
Qed.

Section ServiceScenarios.
Variable P : Program.

Lemma generateOnce_never (host : string) (token : option string) (body : JSON)
    (w : World) :
  neverDelivers (oracle w) ->
  exists e w', Enhanced.generateOnce P host token body w = (Throw e, w').
Proof.
  intros Hdown. unfold Enhanced.generateOnce, bind, Utils.post.
  specialize (Hdown (io w) (Enhanced.generateRequest P host token body)).
  destruct (net_post (oracle w) (io w) _) as [response|msg]; [|eauto].
  destruct (validateResponse_invalid response Hdown) as [e He].
  rewrite He. eauto.
Qed.

Lemma withRetryLoop_never {T} (operation : M T) (maxRetries : Z)
    (useExponentialBackoff : bool) (o : Oracle) :
  keepsOracle operation ->
  (forall w, oracle w = o -> exists e w', operation w = (Throw e, w')) ->
  forall fuel attempt lastError w,
    oracle w = o ->
    exists e w',
      Enhanced.withRetryLoop P operation maxRetries useExponentialBackoff
        fuel attempt lastError w = (Throw e, w').
Proof.
  intros Hkeep Hfail. induction fuel as [|fuel IH]; intros attempt lastError w Ho.
  - simpl. destruct lastError; unfold Enhanced.throwLast, throw; eauto.
  - simpl. destruct (attempt <=? maxRetries).
    + unfold tryCatch. destruct (Hfail w Ho) as (e & w1 & Hop).
      pose proof (Hkeep w) as Hw. rewrite Hop in *. simpl in Hw.
      destruct (hasMessage e); [|unfold throw; simpl; eauto]. cbn [negb].
      unfold bind. destruct (attempt <? maxRetries); simpl; apply IH;
        simpl; congruence.
    + destruct lastError; unfold Enhanced.throwLast, throw; eauto.
Qed.

Lemma reviewItem_never (i : nat) (item : DiffItem) (w : World) :
  neverDelivers (oracle w) ->
  exists e w', Enhanced.reviewItem P i item w = (Throw e, w').
Proof.
  intros Hdown. unfold Enhanced.reviewItem, bind at 1.
  set (w0 := snd ((if (0 <? i)%nat then sleep 2000 else ret tt) w)).
  assert (Hw0 : (if (0 <? i)%nat then sleep 2000 else ret tt) w = (Ok tt, w0)).
  { subst w0. now destruct (0 <? i)%nat. }
  assert (Ho : oracle w0 = oracle w).
  { subst w0. now destruct (0 <? i)%nat. }
  rewrite Hw0. unfold bind.
  assert (Hgen : exists e w',
            Enhanced.aiGenerate P (url P) (INPUT_AI_TOKEN (env P))
              (Some (context item)) (model P) (INPUT_REVIEW_PROMPT (env P)) w0
            = (Throw e, w')).
  { unfold Enhanced.aiGenerate.
    destruct (negb (JS.nonempty (JS.trim (context item)))); [unfold throw; eauto|].
    apply (withRetryLoop_never _ 2 true (oracle w)); auto.
    - apply keeps_generateOnce.
    - intros w1 Hw1. apply generateOnce_never. now rewrite Hw1. }
  destruct Hgen as (e & w' & ->). eauto.
Qed.

Lemma reviewLoop_never : forall items i c0 w,
  neverDelivers (oracle w) ->
  let c := fst (Enhanced.reviewLoop P i items c0 w) in
  successCount c = successCount c0 /\
  errorCount c = (errorCount c0 + List.length items)%nat /\
  failedFiles c = failedFiles c0 ++ map path items.
Proof.
  induction items as [|item rest IH]; intros i c0 w Hdown; cbn zeta.
  - simpl. rewrite app_nil_r. repeat split; lia.
  - cbn [Enhanced.reviewLoop].
    destruct (reviewItem_never i item w Hdown) as (e & w' & Hitem).
    pose proof (keeps_reviewItem P i item w) as Ho.
    rewrite Hitem in *. simpl in Ho.
    destruct (IH (S i)
                (mkCounters (successCount c0) (S (errorCount c0))
                   (failedFiles c0 ++ [path item])) w')
      as (Hs & He & Hf); [now rewrite Ho|].
    cbn [successCount errorCount failedFiles] in *.
    rewrite Hs, He, Hf, <- app_assoc. simpl. repeat split; lia.
Qed.

Lemma generateOnce_always (host : string) (token : option string) (body : JSON)
    (w : World) :
  alwaysDelivers (oracle w) ->
  exists response text w',
    Enhanced.generateOnce P host token body w = (Ok response, w') /\
    prop response "response" = Some (JStr text).
Proof.
  intros Hup. unfold Enhanced.generateOnce, bind, Utils.post.
  destruct (Hup (io w) (Enhanced.generateRequest P host token body))
    as (response & text & -> & Hvalid & Htext).
  rewrite validateResponse_valid by exact Hvalid. eauto.
Qed.

Lemma aiGenerate_always (host : string) (token : option string)
    (p model : string) (system : option string) (w : World) :
  alwaysDelivers (oracle w) ->
  hasVisible p = true ->
  exists response text w',
    Enhanced.aiGenerate P host token (Some p) model system w = (Ok response, w') /\
    prop response "response" = Some (JStr text).
Proof.
  intros Hup Hvis. unfold Enhanced.aiGenerate.
  rewrite nonempty_trim, Hvis. cbn [negb].
  set (body := Enhanced.requestData P _ model system).
  destruct (generateOnce_always host token body w Hup)
    as (response & text & w1 & Hgen & Htext).
  exists response, text, w1. split; [|exact Htext].
  unfold Enhanced.withRetry.
  apply (withRetryLoop_schedule P _ 2 true [] (Ok response)).
  - simpl. now rewrite Hgen.
  - simpl. lia.
  - simpl. lia.
  - now left.
  - reflexivity.
Qed.

Lemma reviewItem_always (i : nat) (item : DiffItem) (w : World) :
  alwaysDelivers (oracle w) ->
  JS.truthyStr (INPUT_PULL_REQUEST_NUMBER (env P)) = false ->
  hasVisible (context item) = true ->
  exists w', Enhanced.reviewItem P i item w = (Ok tt, w').
Proof.
  intros Hup Hlocal Hvis. unfold Enhanced.reviewItem, bind at 1.
  set (w0 := snd ((if (0 <? i)%nat then sleep 2000 else ret tt) w)).
  assert (Hw0 : (if (0 <? i)%nat then sleep 2000 else ret tt) w = (Ok tt, w0)).
  { subst w0. now destruct (0 <? i)%nat. }
  assert (Ho : oracle w0 = oracle w).
  { subst w0. now destruct (0 <? i)%nat. }
  rewrite Hw0. unfold bind at 1.
  destruct (aiGenerate_always (url P) (INPUT_AI_TOKEN (env P)) (context item)
              (model P) (INPUT_REVIEW_PROMPT (env P)) w0)
    as (response & text & w1 & Hgen & Htext); [now rewrite Ho | exact Hvis |].
  rewrite Hgen, Htext. unfold bind, now, Enhanced.pushComments.
  rewrite Hlocal. simpl. unfold ret. eauto.
Qed.

Lemma reviewLoop_always : forall items i c0 w,
  alwaysDelivers (oracle w) ->
  JS.truthyStr (INPUT_PULL_REQUEST_NUMBER (env P)) = false ->
  Forall (fun it => hasVisible (context it) = true) items ->
  let c := fst (Enhanced.reviewLoop P i items c0 w) in
  successCount c = (successCount c0 + List.length items)%nat /\
  errorCount c = errorCount c0 /\
  failedFiles c = failedFiles c0.
Proof.
  induction items as [|item rest IH]; intros i c0 w Hup Hlocal Hall; cbn zeta.
  - simpl. repeat split; lia.
  - inversion Hall as [|? ? Hvis Hrest]; subst.
    cbn [Enhanced.reviewLoop].
    destruct (reviewItem_always i item w Hup Hlocal Hvis) as (w' & Hitem).
    pose proof (keeps_reviewItem P i item w) as Ho.
    rewrite Hitem in *. simpl in Ho.
    destruct (IH (S i)
                (mkCounters (S (successCount c0)) (errorCount c0) (failedFiles c0))
                w')
      as (Hs & He & Hf); [now rewrite Ho | exact Hlocal | exact Hrest |].
    cbn [successCount errorCount failedFiles] in *.
    rewrite Hs, He, Hf. simpl. repeat split; lia.
Qed.

End ServiceScenarios.

(** X12.  When the generation service never delivers (every request is
    refused or answered with a body that validation refuses), a run that
    passed the connectivity test and collected at least one item counts no
    success and as many errors as items, lists every path as failed in
    order, and ends the process with code 1. *)
Theorem service_never_delivers {engine : RegExpEngine} (P : Program)
    (w w1 w2 : World) (items : list DiffItem) :
  neverDelivers (oracle w) ->
  Enhanced.testOllamaConnection P w = (Ok tt, w1) ->
  collector P w1 = (Ok items, w2) ->
  items <> [] ->
  let out := Enhanced.reviewLoop P 0 items Enhanced.noCounts w2 in
  successCount (fst out) = 0%nat /\
  errorCount (fst out) = List.length items /\
  failedFiles (fst out) = map path items /\
  Enhanced.aiCheckDiffContext P w = (ProcessExit 1, snd out) /\
  Enhanced.main P w = (1, snd out).
Proof.
  intros Hdown Htest Hcollect Hitems out.
  assert (Ho : oracle w2 = oracle w).
  { pose proof (keeps_testOllamaConnection P w) as H1. rewrite Htest in H1.
    pose proof (keeps_collector P w1) as H2. rewrite Hcollect in H2.
    simpl in *. congruence. }
  destruct (reviewLoop_never P items 0 Enhanced.noCounts w2) as (Hs & He & Hf);
    [now rewrite Ho|].
  fold out in Hs, He, Hf. simpl in Hs, He, Hf.
  split; [exact Hs|]. split; [exact He|]. split; [exact Hf|].
  pose proof (aiCheckDiffContextBody_run P w w1 w2 items Htest Hcollect) as Hbody.
  fold out in Hbody.
  destruct items as [|item rest]; [contradiction|].
  cbn [List.length Nat.eqb] in Hbody.
  unfold Enhanced.classify, Enhanced.throwIf in Hbody.
  rewrite Hs, He in Hbody. simpl in Hbody.
  unfold Enhanced.main, Enhanced.aiCheckDiffContext. rewrite Hbody.
  split; reflexivity.
Qed.

(** The sample commit with a generation service that refuses every
    connection. *)
Lemma service_never_delivers_witness :
  let P := Example.enhanced in
  let w := Example.twoFiles [] in
  neverDelivers (oracle w) /\
  fst (@Enhanced.main Example.literalEngine P w) = 1.
Proof.
  intros P w.
  assert (Hdown : neverDelivers (oracle w)).
  { intros history r. simpl. now destruct (List.length (posts history)). }
  split; [exact Hdown|].
  set (w1 := snd (Enhanced.testOllamaConnection P w)).
  set (w2 := snd (@collector Example.literalEngine P w1)).
  destruct (@service_never_delivers Example.literalEngine P w w1 w2
              [mkDiffItem "src/index.ts" "+const a = 1;";
               mkDiffItem "src/utils.test.ts" "+test();"]
              Hdown ltac:(vm_compute; reflexivity) ltac:(vm_compute; reflexivity)
              ltac:(discriminate)) as (_ & _ & _ & _ & Hmain).
  now rewrite Hmain.
Defined.

(** X13.  When no pull request number is configured and the generation
    service answers every request with a valid body whose text is a string,
    a run that passed the connectivity test counts every collected item as
    a success, no error, no failed path, and [aiCheckDiffContext] returns:
    the process exits with code 0. *)
Theorem local_run_succeeds {engine : RegExpEngine} (P : Program)
    (w w1 w2 : World) (items : list DiffItem) :
  alwaysDelivers (oracle w) ->
  JS.truthyStr (INPUT_PULL_REQUEST_NUMBER (env P)) = false ->
  Enhanced.testOllamaConnection P w = (Ok tt, w1) ->
  collector P w1 = (Ok items, w2) ->
  let out := Enhanced.reviewLoop P 0 items Enhanced.noCounts w2 in
  successCount (fst out) = List.length items /\
  errorCount (fst out) = 0%nat /\
  failedFiles (fst out) = [] /\
  Enhanced.aiCheckDiffContext P w = (Returned, snd out) /\
  Enhanced.main P w = (0, snd out).
Proof.
  intros Hup Hlocal Htest Hcollect out.
  assert (Ho : oracle w2 = oracle w).
  { pose proof (keeps_testOllamaConnection P w) as H1. rewrite Htest in H1.
    pose proof (keeps_collector P w1) as H2. rewrite Hcollect in H2.
    simpl in *. congruence. }
  assert (Hvis : Forall (fun it => hasVisible (context it) = true) items).
  { eapply Forall_impl;
      [| apply (collector_items P w1 w2 items); unfold collector in Hcollect;
         destruct (reviewPullRequest (config P)); auto].
    intros it [_ (D & HD & Hctx)]. rewrite Hctx. apply limitDiff_visible.
    now rewrite <- nonempty_trim. }
  destruct (reviewLoop_always P items 0 Enhanced.noCounts w2) as (Hs & He & Hf);
    [now rewrite Ho | exact Hlocal | exact Hvis |].
  fold out in Hs, He, Hf. simpl in Hs, He, Hf.
  split; [exact Hs|]. split; [exact He|]. split; [exact Hf|].
  pose proof (aiCheckDiffContextBody_run P w w1 w2 items Htest Hcollect) as Hbody.
  fold out in Hbody.
  unfold Enhanced.main, Enhanced.aiCheckDiffContext.
  destruct items as [|item rest].
  - simpl in Hbody. rewrite Hbody. split; reflexivity.
  - cbn [List.length Nat.eqb] in Hbody.
    unfold Enhanced.classify, Enhanced.throwIf in Hbody.
    rewrite He in Hbody. simpl in Hbody. rewrite Hbody. split; reflexivity.
Qed.

(** The sample commit with a generation service that always answers. *)
Lemma local_run_succeeds_witness :
  let P := Example.enhanced in
  let w := Example.start Example.reviewing in
  alwaysDelivers (oracle w) /\
  JS.truthyStr (INPUT_PULL_REQUEST_NUMBER (env P)) = false /\
  fst (@Enhanced.main Example.literalEngine P w) = 0.
Proof.
  intros P w.
  assert (Hup : alwaysDelivers (oracle w)).
  { intros history r. exists Example.reviewed, "Looks good to me.".
    repeat split. }
  split; [exact Hup|]. split; [reflexivity|].
  set (w1 := snd (Enhanced.testOllamaConnection P w)).
  set (w2 := snd (@collector Example.literalEngine P w1)).
  destruct (@local_run_succeeds Example.literalEngine P w w1 w2
              [mkDiffItem "src/index.ts" "+const a = 1;";
               mkDiffItem "src/utils.test.ts" "+test();"]
              Hup eq_refl ltac:(vm_compute; reflexivity)
              ltac:(vm_compute; reflexivity)) as (_ & _ & _ & _ & Hmain).
  now rewrite Hmain.
Defined.

(** X14.  A published comment without identifier is not retried.  With the
    publisher configured, once generation has returned a text, the item's
    outcome follows from the first answer of the comment endpoint that
    resolves at once: with a truthy [id] the item succeeds, without one it
    fails with the missing-identifier error, and in both cases exactly one
    comment request has been sent and no delay added. *)
Theorem missing_id_not_retried (P : Program) (i : nat) (item : DiffItem)
    (w w1 : World) (response body : JSON) (commit number repository token : string) :
  INPUT_PULL_REQUEST_NUMBER (env P) = Some number -> JS.nonempty number = true ->
  INPUT_REPOSITORY (env P) = Some repository -> JS.nonempty repository = true ->
  INPUT_TOKEN (env P) = Some token -> JS.nonempty token = true ->
  1 <= maxRetries (config P) ->
  let w0 := if (0 <? i)%nat then sleepWorld 2000 w else w in
  Enhanced.aiGenerate P (url P) (INPUT_AI_TOKEN (env P)) (Some (context item))
    (model P) (INPUT_REVIEW_PROMPT (env P)) w0 = (Ok response, w1) ->
  prop response "response" = Some (JStr commit) ->
  let endpoint :=
    JS.orElse (GITHUB_API_URL (env P)) "https://api.github.com" +++
    "/repos/" +++ repository +++ "/issues/" +++ number +++ "/comments" in
  let req :=
    Enhanced.commentRequest endpoint token
      (Enhanced.formatComment P item (Enhanced.stripFence commit)
         (clock (oracle w1) (io w1))) in
  net_post (oracle w1) (io w1 ++ [IoNow]) req = Resolve body ->
  Enhanced.reviewItem P i item w
  = (if truthyProp (prop body "id") then Ok tt else Throw NoResponseId,
     record (IoPost req) (record IoNow w1)).
Proof.
  intros Hn Hn' Hr Hr' Ht Ht' Hmax w0 Hgen Htext endpoint req Hres.
  subst req endpoint.
  unfold Enhanced.reviewItem, bind at 1.
  assert (Hw0 : (if (0 <? i)%nat then sleep 2000 else ret tt) w = (Ok tt, w0)).
  { subst w0. now destruct (0 <? i)%nat. }
  rewrite Hw0. unfold bind at 1. rewrite Hgen, Htext.
  unfold bind at 1, now. unfold bind.
  assert (Hpush : Enhanced.pushComments P
                    (Enhanced.formatComment P item (Enhanced.stripFence commit)
                       (clock (oracle w1) (io w1))) (record IoNow w1)
                  = (Ok body,
                     record
                       (IoPost
                          (Enhanced.commentRequest
                             (JS.orElse (GITHUB_API_URL (env P)) "https://api.github.com" +++
                              "/repos/" +++ repository +++ "/issues/" +++ number +++
                              "/comments") token
                             (Enhanced.formatComment P item (Enhanced.stripFence commit)
                                (clock (oracle w1) (io w1)))))
                       (record IoNow w1))).
  { unfold Enhanced.pushComments. rewrite Hn, Hr, Ht. cbn [JS.truthyStr].
    rewrite Hn', Hr', Ht'. cbn [negb orb JS.interpolate]. unfold Enhanced.withRetry.
    apply (withRetryLoop_schedule P _ (maxRetries (config P)) false [] (Ok body)).
    - cbn [attemptsAfter List.length attemptsFrom map]. unfold Utils.post.
      cbn [oracle io record]. now rewrite Hres.
    - simpl. lia.
    - simpl. lia.
    - now left.
    - reflexivity. }
  rewrite Hpush. now destruct (truthyProp (prop body "id")).
Qed.

(** Generation returns a review, the comment endpoint answers without an
    identifier: the item fails after one comment request. *)
Lemma missing_id_not_retried_witness :
  let P := Example.program (Enhanced.defaultConfig [] [] false) Example.publishing in
  let item := mkDiffItem "src/index.ts" "+const a = 1;" in
  let w := Example.start
             (Example.scripted
                [Resolve Example.reviewed; Resolve (JObj [("message", JStr "Not Found")])]
                Example.noCommands) in
  1 <= maxRetries (config P) /\
  fst (Enhanced.reviewItem P 0 item w) = Throw NoResponseId /\
  List.length (posts (io (snd (Enhanced.reviewItem P 0 item w)))) = 2%nat /\
  waits (snd (Enhanced.reviewItem P 0 item w)) = [].
Proof.
  intros P item w. split; [simpl; lia|].
  set (w1 := snd (Enhanced.aiGenerate P (url P) (INPUT_AI_TOKEN (env P))
                    (Some (context item)) (model P) (INPUT_REVIEW_PROMPT (env P)) w)).
  rewrite (missing_id_not_retried P 0 item w w1 Example.reviewed
             (JObj [("message", JStr "Not Found")]) "Looks good to me."
             "7" "owner/repo" "secret"
             eq_refl eq_refl eq_refl eq_refl eq_refl eq_refl ltac:(simpl; lia)
             ltac:(vm_compute; reflexivity) eq_refl ltac:(vm_compute; reflexivity)).
  repeat split.
Defined.

(* ================================================================== *)
(** * The Markdown fence and the prompt cap *)
(* ================================================================== *)

Lemma prefix_append (p x : string) : String.prefix p (p +++ x) = true.
Proof.
  induction p as [|c p IH]; simpl; [now destruct x|].
  destruct (ascii_dec c c); [exact IH | contradiction].
Qed.

Lemma reverse_append (a b : string) :
  JS.reverse (a +++ b) = JS.reverse b +++ JS.reverse a.
Proof.
  apply chars_inj.
  now rewrite chars_reverse, !chars_append, !chars_reverse, rev_app_distr.
Qed.

Lemma substring_append_right (a b : string) :
  String.substring (String.length a) (String.length b) (a +++ b) = b.
Proof.
  induction a as [|c a IH]; simpl; [apply substring_full | exact IH].
Qed.

Lemma js_substringFrom_append (a b : string) :
  JS.substringFrom (a +++ b) (JS.len a) = b.
Proof.
  unfold JS.substringFrom, JS.substring, JS.clamp. rewrite len_append.
  pose proof (len_nonneg a). pose proof (len_nonneg b).
  replace (Z.min (Z.max 0 (Z.min (JS.len a) (JS.len a + JS.len b)))
             (Z.max 0 (Z.min (JS.len a + JS.len b) (JS.len a + JS.len b))))
    with (JS.len a) by lia.
  replace (Z.max (Z.max 0 (Z.min (JS.len a) (JS.len a + JS.len b)))
             (Z.max 0 (Z.min (JS.len a + JS.len b) (JS.len a + JS.len b)))
           - JS.len a)
    with (JS.len b) by lia.
  unfold JS.len. rewrite !Nat2Z.id. apply substring_append_right.
Qed.

Lemma len_js_substring (s : string) (a b : Z) :
  JS.len (JS.substring s a b) <= JS.len s.
Proof.
  unfold JS.substring, JS.len. rewrite length_substring. lia.
Qed.

Lemma endsWith_append (body t : string) : JS.endsWith (body +++ t) t = true.
Proof. unfold JS.endsWith. rewrite reverse_append. apply prefix_append. Qed.

(** X15.  [stripFence], the same in both pipelines.  A text that does not
    start with the opening fence is returned as it is, a closing fence
    included.  A text wrapped in the opening and the closing fence is
    unwrapped to its body; with the opening fence only, the body after it
    is returned.  The result is never longer than the text. *)
Theorem stripFence_spec (text body : string) :
  (JS.startsWith text "```markdown" = false -> Enhanced.stripFence text = text) /\
  Enhanced.stripFence ("```markdown" +++ body +++ "```") = body /\
  (JS.endsWith body "```" = false ->
   Enhanced.stripFence ("```markdown" +++ body) = body) /\
  JS.len (Enhanced.stripFence text) <= JS.len text /\
  Old.stripFence text = Enhanced.stripFence text.
Proof.
  split; [|split; [|split; [|split; [|reflexivity]]]].
  - intros H. unfold Enhanced.stripFence. now rewrite H.
  - unfold Enhanced.stripFence, JS.startsWith. rewrite prefix_append.
    rewrite js_substringFrom_append, endsWith_append.
    replace (JS.len (body +++ "```") - 3) with (JS.len body)
      by (rewrite len_append; change (JS.len "```") with 3; lia).
    apply js_substring_append_left.
  - intros H. unfold Enhanced.stripFence, JS.startsWith. rewrite prefix_append.
    now rewrite js_substringFrom_append, H.
  - unfold Enhanced.stripFence.
    destruct (JS.startsWith text "```markdown"); [|lia].
    pose proof (len_js_substring text (JS.len "```markdown") (JS.len text)) as H1.
    fold (JS.substringFrom text (JS.len "```markdown")) in H1.
    destruct (JS.endsWith _ "```"); [|exact H1].
    pose proof (len_js_substring (JS.substringFrom text (JS.len "```markdown")) 0
                  (JS.len (JS.substringFrom text (JS.len "```markdown")) - 3)).
    lia.
Qed.

(** A review in plain text ending with a fence keeps it. *)
Lemma stripFence_spec_witness :
  JS.startsWith "use ```" "```markdown" = false /\
  Enhanced.stripFence "use ```" = "use ```" /\
  JS.endsWith "# ok" "```" = false /\
  Enhanced.stripFence ("```markdown" +++ "# ok") = "# ok".
Proof.
  split; [reflexivity|]. split.
  - apply (proj1 (stripFence_spec "use ```" "")). reflexivity.
  - split; [reflexivity|].
    apply (proj1 (proj2 (proj2 (stripFence_spec "" "# ok")))). reflexivity.
Defined.

(** X16.  [truncatePrompt] beyond the size bound.  For [maxLength >= 50] it
    is idempotent.  For [maxLength <= 50], a prompt longer than
    [maxLength] with at most ten lines is replaced by the bare marker of 32
    characters: none of its text is kept, and the result is longer than
    [maxLength] when [maxLength < 32]. *)
Theorem truncatePrompt_edges (p : string) (L : Z) :
  (50 <= L ->
   Enhanced.truncatePrompt (Enhanced.truncatePrompt p L) L
   = Enhanced.truncatePrompt p L) /\
  (L <= 50 -> L < JS.len p ->
   (List.length (JS.split (ascii_of_nat 10) p) <= 10)%nat ->
   Enhanced.truncatePrompt p L = JS.nl +++ JS.nl +++ "[... truncated for length ...]" /\
   JS.len (Enhanced.truncatePrompt p L) = 32).
Proof.
  split.
  - intros HL. apply truncatePrompt_short. now apply truncatePrompt_length.
  - intros HL Hlong Hlines.
    assert (Heq : Enhanced.truncatePrompt p L
                  = JS.nl +++ JS.nl +++ "[... truncated for length ...]").
    { unfold Enhanced.truncatePrompt.
      destruct (Z.leb_spec (JS.len p) L); [lia|].
      destruct (Nat.ltb_spec 10 (List.length (JS.split (ascii_of_nat 10) p))); [lia|].
      assert (Hsub : JS.substring p 0 (L - 50) = EmptyString).
      { unfold JS.substring, JS.clamp. pose proof (len_nonneg p).
        replace (Z.min (Z.max 0 (Z.min 0 (JS.len p)))
                   (Z.max 0 (Z.min (L - 50) (JS.len p)))) with 0 by lia.
        replace (Z.max (Z.max 0 (Z.min 0 (JS.len p)))
                   (Z.max 0 (Z.min (L - 50) (JS.len p))) - 0) with 0 by lia.
        simpl. now destruct p. }
      now rewrite Hsub. }
    split; [exact Heq|]. now rewrite Heq.
Qed.

(** A prompt of 40 characters on one line with [maxLength = 10]. *)
Lemma truncatePrompt_edges_witness :
  let p := "0123456789012345678901234567890123456789" in
  10 <= 50 /\ 10 < JS.len p /\
  (List.length (JS.split (ascii_of_nat 10) p) <= 10)%nat /\
  JS.len (Enhanced.truncatePrompt p 10) = 32.
Proof.
  intros p. split; [lia|]. split; [reflexivity|]. split; [simpl; lia|].
  apply (proj2 (truncatePrompt_edges p 10)); [lia | reflexivity | simpl; lia].
Defined.

(* ================================================================== *)
(** * Validation of the inputs, pattern lists, HTTP responses *)
(* ================================================================== *)

(** X17.  [validateEnvironment] hands on a host and a model only when both
    inputs are set and not blank and the host parses as a URL; what it
    hands on is trimmed and not empty.  A host or model input that is
    unset, empty or blank ends the process. *)
Theorem validateEnvironment_spec (URL_parses : string -> bool)
    (INPUT_HOST INPUT_MODEL : option string) :
  (forall url model,
     Startup.validateEnvironment URL_parses INPUT_HOST INPUT_MODEL
       = Some (url, model) ->
     url <> EmptyString /\ JS.trim url = url /\ URL_parses url = true /\
     model <> EmptyString /\ JS.trim model = model /\
     INPUT_HOST <> None /\ INPUT_MODEL <> None) /\
  (hasVisible (JS.orElse INPUT_HOST "") = false ->
   Startup.validateEnvironment URL_parses INPUT_HOST INPUT_MODEL = None) /\
  (hasVisible (JS.orElse INPUT_MODEL "") = false ->
   Startup.validateEnvironment URL_parses INPUT_HOST INPUT_MODEL = None).
Proof.
  assert (Hblank : forall raw,
            hasVisible (JS.orElse raw "") = false ->
            JS.truthyStr (Startup.trimmedInput raw) = false).
  { intros [s|] H; [|reflexivity]. simpl. rewrite nonempty_trim.
    unfold JS.orElse in H. destruct s; [reflexivity | exact H]. }
  unfold Startup.validateEnvironment.
  split; [|split].
  - intros url model H.
    destruct INPUT_HOST as [h|]; [|discriminate].
    destruct INPUT_MODEL as [m|]; simpl in H.
    + destruct (JS.nonempty (JS.trim h)) eqn:Hh; [|discriminate].
      destruct (JS.nonempty (JS.trim m)) eqn:Hm; [|discriminate].
      simpl in H.
      destruct (URL_parses (JS.trim h)) eqn:Hu; [|discriminate].
      injection H as <- <-.
      repeat split; try discriminate; try apply trim_idempotent; try exact Hu.
      * intros E. rewrite E in Hh. discriminate.
      * intros E. rewrite E in Hm. discriminate.
    + destruct (JS.nonempty (JS.trim h)); discriminate.
  - intros H. now rewrite (Hblank _ H).
  - intros H. rewrite (Hblank _ H).
    now destruct (negb (JS.truthyStr (Startup.trimmedInput INPUT_HOST))).
Qed.

(** A host with spaces around it, and a blank model. *)
Lemma validateEnvironment_spec_witness :
  Startup.validateEnvironment (fun _ => true)
    (Some " http://localhost:11434 ") (Some "codellama")
    = Some ("http://localhost:11434", "codellama") /\
  JS.trim "http://localhost:11434" = "http://localhost:11434" /\
  hasVisible (JS.orElse (Some "  ") "") = false /\
  Startup.validateEnvironment (fun _ => true)
    (Some "http://localhost:11434") (Some "  ") = None.
Proof.
  split; [reflexivity|]. split.
  - apply (proj1 (validateEnvironment_spec (fun _ => true)
                    (Some " http://localhost:11434 ") (Some "codellama"))
             "http://localhost:11434" "codellama" eq_refl).
  - split; [reflexivity|].
    apply (proj2 (proj2 (validateEnvironment_spec (fun _ => true)
                           (Some "http://localhost:11434") (Some "  ")))).
    reflexivity.
Defined.

(** X18.  Pattern lists compose as a disjunction: a file matches the
    concatenation of two lists exactly when it matches one of them, so the
    order of the patterns does not matter.  Hence adding exclude patterns
    can only take files out of scope, in both pipelines. *)
Theorem pattern_lists_compose {engine : RegExpEngine} (P Q : list string)
    (F : string) :
  Utils.doesAnyPatternMatch (P ++ Q) F
    = Utils.doesAnyPatternMatch P F || Utils.doesAnyPatternMatch Q F /\
  Utils.doesAnyPatternMatch (P ++ Q) F = Utils.doesAnyPatternMatch (Q ++ P) F /\
  (forall prog prog',
     includeFiles (config prog') = includeFiles (config prog) ->
     excludeFiles (config prog') = excludeFiles (config prog) ++ Q ->
     (Enhanced.inScope prog' F = true -> Enhanced.inScope prog F = true) /\
     (Old.inScope prog' F = true -> Old.inScope prog F = true)).
Proof.
  assert (Happ : forall A B,
            Utils.doesAnyPatternMatch (A ++ B) F
            = Utils.doesAnyPatternMatch A F || Utils.doesAnyPatternMatch B F).
  { intros A B. rewrite !doesAnyPatternMatch_existsb, existsb_app.
    now destruct (JS.nonempty F). }
  split; [apply Happ|]. split; [rewrite !Happ; apply orb_comm|].
  intros prog prog' HI HE.
  assert (Hmono : forall a b c, a && negb (b || c) = true -> a && negb b = true).
  { intros [] [] []; simpl; auto. }
  split.
  - rewrite (inScope_policy prog' F), (inScope_policy prog F), HI, HE, Happ.
    apply Hmono.
  - rewrite (old_inScope_policy prog' F), (old_inScope_policy prog F), HI, HE, Happ.
    apply Hmono.
Qed.

(** Adding the exclude pattern [test] to an empty exclude list. *)
Lemma pattern_lists_compose_witness :
  let prog := Example.program (Enhanced.defaultConfig [] [] false) Example.noEnv in
  let prog' := Example.program (Enhanced.defaultConfig [] ["test"] false) Example.noEnv in
  includeFiles (config prog') = includeFiles (config prog) /\
  excludeFiles (config prog') = excludeFiles (config prog) ++ ["test"] /\
  @Enhanced.inScope Example.literalEngine prog' "src/index.ts" = true /\
  @Enhanced.inScope Example.literalEngine prog "src/index.ts" = true.
Proof.
  intros prog prog'. split; [reflexivity|]. split; [reflexivity|].
  split; [reflexivity|].
  apply (proj1 (proj2 (proj2 (@pattern_lists_compose Example.literalEngine
                                [] ["test"] "src/index.ts"))
                  prog prog' eq_refl eq_refl)).
  reflexivity.
Defined.

(** X19.  The end of an HTTP exchange.  The promise resolves only for a
    status from 200 to 299; when JSON is expected, only with a body that is
    not blank and parses, and then with the parsed value.  A blank body is
    reported as an empty body and an unparsable one as a parse failure
    whatever the status, so a response outside 2xx is reported by its
    status only when its body parses (or when JSON is not expected).  A
    missing status never resolves. *)
Theorem onEnd_spec (JSON_parse : string -> option JSON) (json : bool)
    (statusCode : option Z) (responseBody : string) :
  let settled := Http.onEnd JSON_parse json statusCode responseBody in
  (forall value,
     settled = Http.Resolved value ->
     exists code,
       statusCode = Some code /\ 200 <= code < 300 /\
       if json
       then hasVisible responseBody = true /\ JSON_parse responseBody = Some value
       else value = JStr responseBody) /\
  (json = true -> hasVisible responseBody = false ->
   settled = Http.Rejected Http.EmptyBody) /\
  (json = true -> hasVisible responseBody = true ->
   JSON_parse responseBody = None ->
   settled = Http.Rejected Http.ParseFailed) /\
  (forall code,
     statusCode = Some code -> ~ (200 <= code < 300) ->
     (json = false \/
      (hasVisible responseBody = true /\ JSON_parse responseBody <> None)) ->
     settled = Http.Rejected (Http.HttpStatus code)) /\
  (statusCode = None -> forall value, settled <> Http.Resolved value).
Proof.
  intros settled. subst settled. unfold Http.onEnd, Http.badStatus.
  rewrite nonempty_trim.
  split; [|split; [|split; [|split]]].
  - intros value H. destruct json.
    + destruct (hasVisible responseBody); [|discriminate]. simpl in H.
      destruct (JSON_parse responseBody) as [parsed|]; [|discriminate].
      destruct statusCode as [code|].
      * destruct (Z.ltb_spec code 200); [discriminate|].
        destruct (Z.leb_spec 300 code); [discriminate|].
        injection H as <-. exists code. repeat split; lia.
      * discriminate.
    + destruct statusCode as [code|]; [|discriminate].
      destruct (Z.ltb_spec code 200); [discriminate|].
      destruct (Z.leb_spec 300 code); [discriminate|].
      injection H as <-. exists code. repeat split; lia.
  - intros -> ->. reflexivity.
  - intros -> -> ->. reflexivity.
  - intros code -> Hbad Hbody.
    assert (Hb : (code <? 200) || (300 <=? code) = true).
    { destruct (Z.ltb_spec code 200); [reflexivity|].
      destruct (Z.leb_spec 300 code); [reflexivity | lia]. }
    destruct Hbody as [-> | [Hvis Hparse]].
    + now rewrite Hb.
    + destruct json; [|now rewrite Hb]. rewrite Hvis. simpl.
      destruct (JSON_parse responseBody); [now rewrite Hb | contradiction].
  - intros -> value. destruct json.
    + destruct (hasVisible responseBody); [|discriminate]. simpl.
      destruct (JSON_parse responseBody); discriminate.
    + discriminate.
Qed.

(** A 404 with an empty body is reported as an empty body; a 404 with a
    JSON body by its status. *)
Lemma onEnd_spec_witness :
  let parse := fun s : string =>
                 if (s =? "{}")%string then Some (JObj []) else None in
  Http.onEnd parse true (Some 404) "" = Http.Rejected Http.EmptyBody /\
  Http.onEnd parse true (Some 404) "{}" = Http.Rejected (Http.HttpStatus 404).
Proof.
  intros parse. split.
  - apply (proj1 (proj2 (onEnd_spec parse true (Some 404) ""))); reflexivity.
  - apply (proj1 (proj2 (proj2 (proj2 (onEnd_spec parse true (Some 404) "{}"))))
             404 eq_refl); [lia|].
    right. split; [reflexivity | discriminate].
Defined.

(* ================================================================== *)
(** * The effects of a successful local run *)
(* ================================================================== *)

Section LocalEffects.
Variable P : Program.
Hypothesis local : JS.truthyStr (INPUT_PULL_REQUEST_NUMBER (env P)) = false.




End LocalEffects.


